(** * Octonion semantic classifier: the worker's classification pipeline

    A shallow embedding of [transformer-worker.js]: the propagation table
    [octTable] and its verification, [propagateNarrative], the sentence
    chunker and the numeric pipeline of [classifyText], the two diagnostics
    [computeCohomologyClass] and [zariskiCoverings], and the [set-labels]
    branch of the message handler; further [analyzeNarrativeTrajectory],
    the dominant dimension of a classification, and, of the shared
    modules, [CoherenceAnalyzer]'s class and coverings and
    [ProvenanceTracker.simpleHash].

    Conventions.  Module-level bindings of the worker ([octTable],
    [currentLabels], [prototypes], [prototypeEmbeddings], [embedder]) are
    passed explicitly.  A [throw] is a value [Throw e] of the [result] type,
    with one constructor of [error] per throw site.  Integers that the code
    only compares, multiplies or uses as indices are [Z]. *)

From Stdlib Require Import ZArith List String Ascii Bool Lia Permutation.
From Stdlib Require Import Reals Lra.
From Stdlib Require PrimFloat Uint63.
Import ListNotations.

Local Open Scope Z_scope.

(** * Part I: the program *)

(** ** Exceptions *)

Inductive error : Type :=
| EmbedderNotInitialized                (* "Embedder not initialized" *)
| NoValidChunks                         (* "No valid chunks to embed" *)
| InvalidDimension (nextDim : Z)        (* "Invalid dimension in chain: n" *)
| InvalidMultiplication (i j : Z)       (* "Invalid octonion multiplication: ei * ej" *)
| LabelsNotSeven                        (* "Labels must be array of exactly 7 strings" *)
| EmbedderFailure                       (* the external embedder rejected *)
| TypeError.                            (* a property read on null or undefined *)

Inductive result (A : Type) : Type :=
| Ok (a : A)
| Throw (e : error).

Arguments Ok {A} a.
Arguments Throw {A} e.

Definition bind {A B : Type} (r : result A) (k : A -> result B) : result B :=
  match r with
  | Ok a => k a
  | Throw e => Throw e
  end.

Notation "x <- r ;; k" := (bind r (fun x => k))
  (at level 61, r at next level, right associativity).

(** [a[i]] on a JS array: [undefined] ([None]) when [i] is not an index. *)
Definition js_nth {A : Type} (a : list A) (i : Z) : option A :=
  if i <? 0 then None else nth_error a (Z.to_nat i).

(** ** The propagation table *)

(** An entry [[sign, index]]; a row is an array whose slot 0 is [null]; the
    table is an array whose slot 0 is [null]. *)
Definition entry : Type := (Z * Z)%type.
Definition row : Type := list (option entry).
Definition table : Type := list (option row).

Definition octTable : table :=
  [ None;
    Some [None; Some (-1,0); Some (1,4); Some (1,7); Some (-1,2); Some (1,6); Some (-1,5); Some (-1,3)];
    Some [None; Some (-1,4); Some (-1,0); Some (1,5); Some (1,1); Some (-1,3); Some (1,7); Some (-1,6)];
    Some [None; Some (-1,7); Some (-1,5); Some (-1,0); Some (1,6); Some (1,2); Some (-1,4); Some (1,1)];
    Some [None; Some (1,2); Some (-1,1); Some (-1,6); Some (-1,0); Some (1,7); Some (1,3); Some (-1,5)];
    Some [None; Some (-1,6); Some (1,3); Some (-1,2); Some (-1,7); Some (-1,0); Some (1,1); Some (1,4)];
    Some [None; Some (1,5); Some (-1,7); Some (1,4); Some (-1,3); Some (-1,1); Some (-1,0); Some (1,2)];
    Some [None; Some (1,3); Some (1,6); Some (-1,1); Some (1,5); Some (-1,4); Some (-1,2); Some (-1,0)] ].

(** [tbl[i][j]]: reading slot [j] of a [null] or missing row is a
    [TypeError]; a [null] or missing slot of a row is a falsy value. *)
Definition lookup (tbl : table) (i j : Z) : result (option entry) :=
  match js_nth tbl i with
  | Some (Some r) =>
      match js_nth r j with
      | Some (Some e) => Ok (Some e)
      | _ => Ok None
      end
  | _ => Throw TypeError
  end.

(** ** verifyFanoStructure *)

Inductive warning : Type :=
| AntiCommutativityFails (i j : Z)
| FanoCycleInconsistent (a b c : Z).

(** The integers [lo, lo+1, ..., lo+n-1]. *)
Fixpoint zrange (lo : Z) (n : nat) : list Z :=
  match n with
  | O => []
  | S n' => lo :: zrange (lo + 1) n'
  end.

(** The index pairs of [for i in 1..7, for j in i+1..7], in loop order. *)
Definition upperPairs : list (Z * Z) :=
  flat_map (fun i => map (fun j => (i, j)) (zrange (i + 1) (Z.to_nat (7 - i))))
           (zrange 1 7).

Definition fanoCycles : list (Z * Z * Z) :=
  [ (1,2,4); (2,3,5); (3,4,6); (4,5,7); (5,6,1); (6,7,2); (7,1,3) ].

(** The running pair [(valid, warnings)] of the function. *)
Definition verdict : Type := (bool * list warning)%type.

Definition antiCommStep (tbl : table) (v : verdict) (ij' : Z * Z) : result verdict :=
  let '(i, j) := ij' in
  ij <- lookup tbl i j ;;
  ji <- lookup tbl j i ;;
  match ij, ji with
  | Some (s1, k1), Some (s2, k2) =>
      if negb (k1 =? k2) || negb (s1 =? - s2)
      then Ok (false, snd v ++ [AntiCommutativityFails i j])
      else Ok v
  | _, _ => Ok v                                   (* continue *)
  end.

Definition fanoCycleStep (tbl : table) (v : verdict) (cyc : Z * Z * Z) : result verdict :=
  let '(a, b, c) := cyc in
  ab <- lookup tbl a b ;;
  bc <- lookup tbl b c ;;
  ca <- lookup tbl c a ;;
  match ab, bc, ca with
  | Some (s1, _), Some (s2, _), Some (s3, _) =>
      let product := s1 * s2 * s3 in
      if negb (product =? -1) && negb (product =? 1)
      then Ok (false, snd v ++ [FanoCycleInconsistent a b c])
      else Ok v
  | _, _, _ => Ok v                                (* continue *)
  end.

(** A [for] loop whose body may throw. *)
Fixpoint forEach {S X : Type} (body : S -> X -> result S) (s : S) (xs : list X)
  : result S :=
  match xs with
  | [] => Ok s
  | x :: xs' => s' <- body s x ;; forEach body s' xs'
  end.

Definition checkAntiCommutativity (tbl : table) (v : verdict) : result verdict :=
  forEach (antiCommStep tbl) v upperPairs.

Definition checkFanoCycles (tbl : table) (v : verdict) : result verdict :=
  forEach (fanoCycleStep tbl) v fanoCycles.

Definition verifyFanoStructure (tbl : table) : result verdict :=
  v <- checkAntiCommutativity tbl (true, []) ;;
  checkFanoCycles tbl v.

(** Every sign stored in the table is [-1] or [+1]. *)
Definition signs_unit (tbl : table) : bool :=
  forallb (fun r : option row =>
             match r with
             | None => true
             | Some es =>
                 forallb (fun e : option entry =>
                            match e with
                            | None => true
                            | Some (s, _) => (s =? 1) || (s =? -1)
                            end) es
             end) tbl.

(** ** propagateNarrative *)

(** A verbose trace entry; [input] is absent on step 0.  The display strings
    of the trace are functions of these fields and are left out. *)
Record step : Type := mkStep {
  step_no : Z;
  step_input : option Z;
  step_sign : Z;
  step_dimension : Z
}.

Record propagation : Type := mkPropagation {
  finalSign : Z;
  finalDimension : Z;
  finalLabel : string;
  steps : option (list step)
}.

(** The body of the loop over [chain], from index [i] on. *)
Fixpoint propagateLoop (tbl : table) (verbose : bool) (i : Z) (chain : list Z)
    (accumulator : entry) (trace : list step) : result (entry * list step) :=
  match chain with
  | [] => Ok (accumulator, trace)
  | nextDim :: rest =>
      if (nextDim <? 1) || (nextDim >? 7) then Throw (InvalidDimension nextDim)
      else
        let '(currentSign, currentDim) := accumulator in
        product <- lookup tbl currentDim nextDim ;;
        match product with
        | None => Throw (InvalidMultiplication currentDim nextDim)
        | Some (s, k) =>
            let accumulator' := (currentSign * s, k) in
            propagateLoop tbl verbose (i + 1) rest accumulator'
              (if verbose
               then trace ++ [mkStep (i + 1) (Some nextDim) (fst accumulator') (snd accumulator')]
               else trace)
        end
  end.

(** [currentLabels[d - 1] || 'Real'] *)
Definition labelOf (currentLabels : list string) (d : Z) : string :=
  match js_nth currentLabels (d - 1) with
  | Some l => if String.eqb l "" then "Real"%string else l
  | None => "Real"%string
  end.

Definition propagateNarrative (tbl : table) (currentLabels : list string)
    (startDim : Z) (chain : list Z) (verbose : bool) : result propagation :=
  let trace0 := if verbose then [mkStep 0 None 1 startDim] else [] in
  r <- propagateLoop tbl verbose 0 chain (1, startDim) trace0 ;;
  let '(accumulator, trace) := r in
  Ok (mkPropagation (fst accumulator) (snd accumulator)
        (labelOf currentLabels (snd accumulator))
        (if verbose then Some trace else None)).

(** The transition of the specification: from [(sign, symbol)] on input [n],
    with [(tableSign, tableTarget)] the table entry for [symbol] and [n],
    the new state is [(sign * tableSign, tableTarget)].  Where the table has
    no entry the state is left as it is. *)
Definition transition (tbl : table) (st : entry) (n : Z) : entry :=
  match lookup tbl (snd st) n with
  | Ok (Some (tableSign, tableTarget)) => (fst st * tableSign, tableTarget)
  | _ => st
  end.

Definition inRange (n : Z) : bool := (1 <=? n) && (n <=? 7).

(** The outcome of a propagation as far as the specification sees it. *)
Definition finalState (r : result propagation) : result entry :=
  p <- r ;; Ok (finalSign p, finalDimension p).

(** The state after consuming [chain] from [st] by [transition]. *)
Definition run (tbl : table) (st : entry) (chain : list Z) : entry :=
  fold_left (transition tbl) chain st.

(** Whether some element of [chain] is consumed while the current symbol is
    0, the real scalar, whose row of the table is [null]. *)
Fixpoint scalarBeforeEnd (tbl : table) (st : entry) (chain : list Z) : bool :=
  match chain with
  | [] => false
  | n :: rest => (snd st =? 0) || scalarBeforeEnd tbl (transition tbl st n) rest
  end.

Definition defaultLabels : list string :=
  [ "Root"; "Sacral"; "Solar-Plexus"; "Heart"; "Throat"; "Third-Eye"; "Crown" ]%string.

(** ** The chunker of classifyText *)

(** Texts are [string]s, one [ascii] per code unit. *)
Local Open Scope string_scope.

Definition isTerminator (c : ascii) : bool :=
  Ascii.eqb c "." || Ascii.eqb c "!" || Ascii.eqb c "?".

(** [text.match(/[^.!?]+[.!?]+/g)].  The scan goes left to right.  A match
    starts at the first character that is not a terminator, takes the whole
    run of such characters and then the whole run of terminators after it;
    the next match is looked for after that.  Terminators before the first
    match are passed over, and a last run of characters that no terminator
    follows is part of no match. *)
Inductive scanState : Type :=
| Between                     (* no match in progress *)
| InBody (m : string)         (* inside [^.!?]+ *)
| InPunct (m : string).       (* inside [.!?]+ *)

Definition snoc (m : string) (c : ascii) : string := m ++ String c "".

Fixpoint scanSentences (st : scanState) (text : string) : list string :=
  match text with
  | "" =>
      match st with
      | InPunct m => [m]
      | _ => []
      end
  | String c rest =>
      if isTerminator c then
        match st with
        | Between => scanSentences Between rest
        | InBody m | InPunct m => scanSentences (InPunct (snoc m c)) rest
        end
      else
        match st with
        | Between => scanSentences (InBody (String c "")) rest
        | InBody m => scanSentences (InBody (snoc m c)) rest
        | InPunct m => m :: scanSentences (InBody (String c "")) rest
        end
  end.

(** [text.match(...) || [text]]: [match] gives [null] when nothing matches. *)
Definition sentencesOf (text : string) : list string :=
  match scanSentences Between text with
  | [] => [text]
  | ms => ms
  end.

Definition strlen (s : string) : Z := Z.of_nat (String.length s).

(** The body of [for (const sentence of sentences)], on the pair
    [(chunks, currentChunk)]. *)
Definition chunkStep (maxChunkSize minChunkSize : Z)
    (st : list string * string) (sentence : string) : list string * string :=
  let '(chunks, currentChunk) := st in
  if strlen (currentChunk ++ sentence) >? maxChunkSize then
    if strlen currentChunk >=? minChunkSize
    then ((chunks ++ [currentChunk])%list, sentence)
    else (chunks, currentChunk ++ sentence)
  else (chunks, currentChunk ++ sentence).

Definition chunkSentences (maxChunkSize minChunkSize : Z) (sentences : list string)
  : list string :=
  let '(chunks, currentChunk) :=
    fold_left (chunkStep maxChunkSize minChunkSize) sentences ([], "") in
  if String.eqb currentChunk "" then chunks else (chunks ++ [currentChunk])%list.

Definition chunkText (maxChunkSize minChunkSize : Z) (text : string) : list string :=
  chunkSentences maxChunkSize minChunkSize (sentencesOf text).

(** The [options] argument of [classifyText]; a field may be absent. *)
Record options : Type := mkOptions {
  maxChunkSize : option Z;
  minChunkSize : option Z
}.

(** [options.maxChunkSize || 512]: an absent or zero option gives the default. *)
Definition orDefault (o : option Z) (d : Z) : Z :=
  match o with
  | Some v => if (v =? 0)%Z then d else v
  | None => d
  end.

Definition joinChunks (chunks : list string) : string :=
  fold_right String.append "" chunks.

(** [String.prototype.trim]: white space and line terminators among the
    one-byte code units. *)
Definition isWhiteSpace (c : ascii) : bool :=
  let n := nat_of_ascii c in
  (Nat.leb 9 n && Nat.leb n 13) || Nat.eqb n 32 || Nat.eqb n 160.

Fixpoint trimStart (s : string) : string :=
  match s with
  | String c rest => if isWhiteSpace c then trimStart rest else s
  | "" => ""
  end.

Fixpoint reverse (s : string) : string :=
  match s with
  | "" => ""
  | String c rest => snoc (reverse rest) c
  end.

Definition trim (s : string) : string :=
  reverse (trimStart (reverse (trimStart s))).

(** A text with all its white space removed. *)
Fixpoint withoutWhiteSpace (s : string) : string :=
  match s with
  | "" => ""
  | String c rest =>
      if isWhiteSpace c then withoutWhiteSpace rest
      else String c (withoutWhiteSpace rest)
  end.

Local Close Scope string_scope.

(** ** Numbers *)

(** The arithmetic the pipeline uses, as an interface, so that the same
    definitions run on binary64 floats and are reasoned about on reals. *)
Class Number (num : Type) : Type := {
  ofZ : Z -> num;                 (* an integer-valued number *)
  ofDec : Z -> Z -> num;          (* the decimal literal m/d, as 0.1 = 1/10 *)
  nan : num;                      (* what arithmetic makes of [undefined] *)
  nadd : num -> num -> num;
  nsub : num -> num -> num;
  nmul : num -> num -> num;
  ndiv : num -> num -> num;
  nsqrt : num -> num;             (* Math.sqrt *)
  nexp : num -> num;              (* Math.exp *)
  nabs : num -> num;              (* Math.abs *)
  nmax : num -> num -> num;       (* Math.max of two arguments *)
  nlt : num -> num -> bool;       (* a < b *)
  nle : num -> num -> bool;       (* a <= b *)
  truthy : num -> bool            (* ToBoolean *)
}.

(** *** Binary64 floats *)

Definition float : Type := PrimFloat.float.

Definition float_ofZ (z : Z) : float :=
  match z with
  | Z0 => PrimFloat.zero
  | Zpos _ => PrimFloat.of_uint63 (Uint63.of_Z z)
  | Zneg p => PrimFloat.opp (PrimFloat.of_uint63 (Uint63.of_Z (Zpos p)))
  end.

Definition float_max (a b : float) : float :=
  if PrimFloat.is_nan a || PrimFloat.is_nan b then PrimFloat.nan
  else if PrimFloat.ltb a b then b
  else if PrimFloat.ltb b a then a
  else if PrimFloat.eqb a PrimFloat.zero then PrimFloat.add a b   (* max(+0, -0) = +0 *)
  else a.

Definition float_truthy (a : float) : bool :=
  negb (PrimFloat.eqb a PrimFloat.zero || PrimFloat.is_nan a).

(** [Math.exp] is left to the platform. *)
#[export] Instance FloatNumber (mathExp : float -> float) : Number float := {
  ofZ := float_ofZ;
  ofDec m d := PrimFloat.div (float_ofZ m) (float_ofZ d);
  nan := PrimFloat.nan;
  nadd := PrimFloat.add;
  nsub := PrimFloat.sub;
  nmul := PrimFloat.mul;
  ndiv := PrimFloat.div;
  nsqrt := PrimFloat.sqrt;
  nexp := mathExp;
  nabs := PrimFloat.abs;
  nmax := float_max;
  nlt := PrimFloat.ltb;
  nle := PrimFloat.leb;
  truthy := float_truthy
}.

(** *** Rounded reals *)

(** A finite number or NaN.  Each operation is the real operation followed
    by a rounding [rnd].  This idealises binary64: there is no infinity, so
    nothing overflows, a rounding error is relative however small the
    number, and a division by zero is NaN also where binary64 gives an
    infinity.  What the code does on binary64 itself is stated on
    [FloatNumber]. *)
Inductive xreal : Type :=
| Fin (r : R)
| NaN.

Section RoundedReals.

Variable rnd : R -> R.          (* rounding to the nearest number *)
Variable mathExp : R -> R.      (* Math.exp on a finite argument *)

Definition lift1 (f : R -> R) (a : xreal) : xreal :=
  match a with
  | Fin x => Fin (f x)
  | NaN => NaN
  end.

Definition lift2 (f : R -> R -> R) (a b : xreal) : xreal :=
  match a, b with
  | Fin x, Fin y => Fin (f x y)
  | _, _ => NaN
  end.

Definition xdiv (a b : xreal) : xreal :=
  match a, b with
  | Fin x, Fin y => if Req_dec_T y 0 then NaN else Fin (rnd (x / y))
  | _, _ => NaN
  end.

Definition xsqrt (a : xreal) : xreal :=
  match a with
  | Fin x => if Rlt_dec x 0 then NaN else Fin (rnd (R_sqrt.sqrt x))
  | NaN => NaN
  end.

Definition xlt (a b : xreal) : bool :=
  match a, b with
  | Fin x, Fin y => if Rlt_dec x y then true else false
  | _, _ => false
  end.

Definition xle (a b : xreal) : bool :=
  match a, b with
  | Fin x, Fin y => if Rle_dec x y then true else false
  | _, _ => false
  end.

Definition xtruthy (a : xreal) : bool :=
  match a with
  | Fin x => if Req_dec_T x 0 then false else true
  | NaN => false
  end.

#[export] Instance RoundedNumber : Number xreal := {
  ofZ z := Fin (IZR z);           (* integers below 2^53 are exact *)
  ofDec m d := Fin (rnd (IZR m / IZR d));
  nan := NaN;
  nadd := lift2 (fun x y => rnd (x + y));
  nsub := lift2 (fun x y => rnd (x - y));
  nmul := lift2 (fun x y => rnd (x * y));
  ndiv := xdiv;
  nsqrt := xsqrt;
  nexp := lift1 mathExp;
  nabs := lift1 Rabs;
  nmax := lift2 Rmax;
  nlt := xlt;
  nle := xle;
  truthy := xtruthy
}.

End RoundedReals.

(** ** The worker *)

Section Worker.

Context {num : Type} {N : Number num}.

Definition embedding : Type := list num.

(** The external embedder on a text: its vector, or [None] when it rejects. *)
Definition Embedder : Type := string -> option embedding.

Inductive message : Type :=
| Status (text : string)
| LabelsUpdated (labels prototypes : list string)
| ErrorMessage (e : error).

(** The module-level bindings, the messages posted and the errors passed to
    [console.warn]. *)
Record state : Type := mkState {
  embedder : option Embedder;
  currentLabels : list string;
  prototypes : list string;
  prototypeEmbeddings : option (list embedding);
  posted : list message;
  warned : list error
}.

(** A computation on the worker's state that may throw. *)
Definition M (A : Type) : Type := state -> state * result A.

Definition ret {A : Type} (a : A) : M A := fun s => (s, Ok a).

Definition throw {A : Type} (e : error) : M A := fun s => (s, Throw e).

Definition bindM {A B : Type} (m : M A) (k : A -> M B) : M B :=
  fun s =>
    match m s with
    | (s', Ok a) => k a s'
    | (s', Throw e) => (s', Throw e)
    end.

(** [try { m } catch (e) { ... }]: the outcome of [m] as a value. *)
Definition try {A : Type} (m : M A) : M (result A) :=
  fun s => let '(s', r) := m s in (s', Ok r).

Definition get : M state := fun s => (s, Ok s).

Definition modify (f : state -> state) : M unit := fun s => (f s, Ok tt).

Notation "x <~ m ;; k" := (bindM m (fun x => k))
  (at level 61, m at next level, right associativity).
Notation "m >> k" := (bindM m (fun _ => k))
  (at level 62, right associativity).

Definition postMessage (msg : message) : M unit :=
  modify (fun s => mkState (embedder s) (currentLabels s) (prototypes s)
                     (prototypeEmbeddings s) (posted s ++ [msg]) (warned s)).

(** [console.warn("Chunk embedding failed:", e)] *)
Definition warn (e : error) : M unit :=
  modify (fun s => mkState (embedder s) (currentLabels s) (prototypes s)
                     (prototypeEmbeddings s) (posted s) (warned s ++ [e])).

Definition setCurrentLabels (labels : list string) : M unit :=
  modify (fun s => mkState (embedder s) labels (prototypes s)
                     (prototypeEmbeddings s) (posted s) (warned s)).

Definition setPrototypes (ps : list string) : M unit :=
  modify (fun s => mkState (embedder s) (currentLabels s) ps
                     (prototypeEmbeddings s) (posted s) (warned s)).

Definition setPrototypeEmbeddings (es : list embedding) : M unit :=
  modify (fun s => mkState (embedder s) (currentLabels s) (prototypes s)
                     (Some es) (posted s) (warned s)).

(** [await embedder(text, ...)]: calling [null] is a [TypeError]. *)
Definition callEmbedder (text : string) : M embedding :=
  s <~ get ;;
  match embedder s with
  | None => throw TypeError
  | Some f =>
      match f text with
      | Some v => ret v
      | None => throw EmbedderFailure
      end
  end.

(** [prototypeEmbeddings.push(...)] *)
Definition pushPrototypeEmbedding (e : embedding) : M unit :=
  s <~ get ;;
  match prototypeEmbeddings s with
  | Some es => setPrototypeEmbeddings (es ++ [e])
  | None => throw TypeError
  end.

Fixpoint embedEach (ps : list string) : M unit :=
  match ps with
  | [] => ret tt
  | p :: rest =>
      output <~ callEmbedder p ;;
      pushPrototypeEmbedding output >>
      embedEach rest
  end.

(** The loop starts at index 1: slot 0 of [prototypes] is unused. *)
Definition updatePrototypeEmbeddings : M unit :=
  postMessage (Status "Computing prototype embeddings...") >>
  setPrototypeEmbeddings [] >>
  s <~ get ;;
  embedEach (tl (prototypes s)) >>
  postMessage (Status "Prototypes ready").

(** [x[i]] read as a number. *)
Definition at_ (x : list num) (i : Z) : num :=
  match js_nth x i with
  | Some v => v
  | None => nan
  end.

Definition cosineSimilarity (a b : list num) : num :=
  let '(dot, magA, magB) :=
    fold_left (fun '(dot, magA, magB) i =>
                 (nadd dot (nmul (at_ a i) (at_ b i)),
                  nadd magA (nmul (at_ a i) (at_ a i)),
                  nadd magB (nmul (at_ b i) (at_ b i))))
              (zrange 0 (List.length a)) (ofZ 0, ofZ 0, ofZ 0) in
  let q := ndiv dot (nmul (nsqrt magA) (nsqrt magB)) in
  if truthy q then q else ofZ 0.

(** *** Diagnostics *)

Definition computeCohomologyClass (vector : list num) : Z :=
  let threshold := ofDec 1 10 in
  let signChanges :=
    fold_left (fun signChanges i =>
                 let diff := nsub (at_ vector (Z.rem (i + 1) 7)) (at_ vector i) in
                 if nlt threshold (nabs diff)
                 then signChanges + (if nlt (ofZ 0) diff then 1 else 0)
                 else signChanges)
              (zrange 0 7) 0 in
  Z.rem signChanges 2.

Record cover : Type := mkCover {
  cover_mask : Z;
  cover_indices : list Z;
  cover_sum : num;
  cover_labels : list (option string)
}.

(** The inner loop: the mass and the 1-based indices of the subset [mask]. *)
Definition subsetOf (vector : list num) (mask : Z) : num * list Z :=
  fold_left (fun '(sum, indices) i =>
               if Z.land mask (Z.shiftl 1 i) =? 0 then (sum, indices)
               else (nadd sum (at_ vector i), indices ++ [i + 1]))
            (zrange 0 7) (ofZ 0, []).

Definition zariskiCoverings (labels : list string) (vector : list num) : list cover :=
  let threshold := ofDec 8 10 in
  fold_left (fun covers mask =>
               let '(sum, indices) := subsetOf vector mask in
               if nle threshold sum
               then covers ++ [mkCover mask indices sum
                                 (map (fun idx => js_nth labels (idx - 1)) indices)]
               else covers)
            (zrange 1 127) [].

(** *** classifyText *)

(** The fields of the result that the properties below are about; the
    dominant index, its label and the confidence are left out. *)
Record classification : Type := mkClassification {
  vector : list num;
  rawVector : list num;
  avgEmbedding : list num;
  cohomologyClass : Z;
  zariskiCount : Z;
  chunksProcessed : Z
}.

(** [for (let i = 0; i < 384; i++) avgEmbedding[i] += embedding[i]] *)
Definition accumulate (avgEmbedding embedding : list num) : list num :=
  map (fun i => nadd (at_ avgEmbedding i) (at_ embedding i)) (zrange 0 384).

(** The loop over the chunks, on the pair [(avgEmbedding, validChunks)]. *)
Fixpoint embedChunks (chunks : list string) (acc : list num * Z) : M (list num * Z) :=
  match chunks with
  | [] => ret acc
  | chunk :: rest =>
      if strlen (trim chunk) <? 10 then embedChunks rest acc
      else
        r <~ try (callEmbedder (trim chunk)) ;;
        match r with
        | Ok embedding =>
            embedChunks rest (accumulate (fst acc) embedding, snd acc + 1)
        | Throw e =>
            warn e >>
            embedChunks rest acc
        end
  end.

(** The rectified softmax with scale factor 5. *)
Definition softmax (rawVector : list num) : list num :=
  let expScores := map (fun x => nexp (nmul (nmax (ofZ 0) x) (ofZ 5))) rawVector in
  let sumExp := fold_left nadd expScores (ofZ 0) in
  map (fun x => ndiv x sumExp) expScores.

Definition classifyText (text : string) (opts : options) : M classification :=
  s <~ get ;;
  match embedder s with
  | None => throw EmbedderNotInitialized
  | Some _ =>
      match prototypeEmbeddings s with
      | None => updatePrototypeEmbeddings
      | Some _ => ret tt
      end >>
      let maxSize := orDefault (maxChunkSize opts) 512 in
      let minSize := orDefault (minChunkSize opts) 100 in
      let chunks := chunkText maxSize minSize text in
      r <~ embedChunks chunks (repeat (ofZ 0) 384, 0) ;;
      let '(sums, validChunks) := r in
      if validChunks =? 0 then throw NoValidChunks
      else
        let avg := map (fun i => ndiv (at_ sums i) (ofZ validChunks)) (zrange 0 384) in
        s' <~ get ;;
        match prototypeEmbeddings s' with
        | None => throw TypeError
        | Some protos =>
            let raw := map (fun protoEmb => cosineSimilarity avg protoEmb) protos in
            let v := softmax raw in
            ret (mkClassification v raw avg
                   (computeCohomologyClass v)
                   (Z.of_nat (List.length (zariskiCoverings (currentLabels s') v)))
                   validChunks)
        end
  end.

(** *** The set-labels message *)

Record setLabelsData : Type := mkSetLabelsData {
  data_labels : option (list string);
  data_prototypes : option (list string)
}.

(** The [case "set-labels"] branch. *)
Definition setLabels (data : setLabelsData) : M unit :=
  match data_labels data with
  | Some labels =>
      if Nat.eqb (List.length labels) 7 then
        setCurrentLabels labels >>
        match data_prototypes data with
        | Some ps =>
            if Nat.eqb (List.length ps) 8
            then (setPrototypes ps >> updatePrototypeEmbeddings)
            else ret tt
        | None => ret tt
        end >>
        s <~ get ;;
        postMessage (LabelsUpdated (currentLabels s) (tl (prototypes s)))
      else throw LabelsNotSeven
  | None => throw LabelsNotSeven
  end.

(** [self.onmessage] on a set-labels message: the [catch] of the handler
    posts the error. *)
Definition onmessage_setLabels (data : setLabelsData) : M unit :=
  r <~ try (setLabels data) ;;
  match r with
  | Ok _ => ret tt
  | Throw e => postMessage (ErrorMessage e)
  end.

End Worker.

(** ** Notions the properties are stated with *)

Section WorkerNotions.

Context {num : Type} {N : Number num}.

(** A chunk that is long enough and that the embedder accepts. *)
Definition embeds (f : @Embedder num) (chunk : string) : bool :=
  negb (strlen (trim chunk) <? 10) &&
  match f (trim chunk) with Some _ => true | None => false end.

(** A chunk that is long enough and that the embedder rejects. *)
Definition rejected (f : @Embedder num) (chunk : string) : bool :=
  negb (strlen (trim chunk) <? 10) &&
  match f (trim chunk) with Some _ => false | None => true end.

Definition validChunkCount (f : @Embedder num) (chunks : list string) : Z :=
  Z.of_nat (List.length (filter (embeds f) chunks)).

Definition addWarnings (s : @state num) (ws : list error) : @state num :=
  mkState (embedder s) (currentLabels s) (prototypes s)
    (prototypeEmbeddings s) (posted s) (warned s ++ ws).

(** One warning for each chunk the embedder rejects. *)
Definition rejectionWarnings (f : @Embedder num) (chunks : list string) : list error :=
  map (fun _ => EmbedderFailure) (filter (rejected f) chunks).

Definition addPosted (s : @state num) (ms : list message) : @state num :=
  mkState (embedder s) (currentLabels s) (prototypes s)
    (prototypeEmbeddings s) (posted s ++ ms) (warned s).

Definition chunksOf (text : string) (opts : options) : list string :=
  chunkText (orDefault (maxChunkSize opts) 512)
            (orDefault (minChunkSize opts) 100) text.

(** Seven prototype embeddings are cached, or none is cached yet and there
    are eight prototype descriptions (slot 0 unused) to embed on demand. *)
Definition sevenPrototypes (s : @state num) : Prop :=
  match prototypeEmbeddings s with
  | Some protos => List.length protos = 7%nat
  | None => List.length (prototypes s) = 8%nat
  end.

(** The label list of a set-labels request is there and has 7 entries. *)
Definition labelsOk (data : setLabelsData) : bool :=
  match data_labels data with
  | Some labels => Nat.eqb (List.length labels) 7
  | None => false
  end.

(** Its prototype list is there and has 8 entries (slot 0 unused). *)
Definition prototypesOk (data : setLabelsData) : bool :=
  match data_prototypes data with
  | Some ps => Nat.eqb (List.length ps) 8
  | None => false
  end.

End WorkerNotions.

(** Every character of [s] satisfies [p]. *)
Fixpoint allChars (p : ascii -> bool) (s : string) : bool :=
  match s with
  | EmptyString => true
  | String c rest => p c && allChars p rest
  end.

Definition notTerminator (c : ascii) : bool := negb (isTerminator c).

(** [s] is empty or starts with a character that is not a terminator. *)
Definition startsSentence (s : string) : bool :=
  match s with
  | EmptyString => true
  | String c _ => notTerminator c
  end.

(** A chunk within the size bound, or a whole sentence, or an accumulated
    chunk shorter than [minSize] followed by one whole sentence. *)
Definition admissible (maxSize minSize : Z) (sentences : list string) (c : string) : Prop :=
  strlen c <= maxSize
  \/ In c sentences
  \/ exists p s, c = (p ++ s)%string /\ In s sentences /\ strlen p < minSize.

(** [xs.reduce((a, b) => a + b, 0)] on reals, each addition rounded. *)
Definition roundedSum (rnd : R -> R) (xs : list R) : R :=
  fold_left (fun a b => rnd (a + b)%R) xs 0%R.

(** The softmax of [classifyText] on real scores, in rounded arithmetic. *)
Definition softmaxR (rnd mathExp : R -> R) (xs : list R) : list R :=
  let expScores := map (fun x => mathExp (rnd (Rmax 0 x * 5)%R)) xs in
  let sumExp := roundedSum rnd expScores in
  map (fun x => rnd (x / sumExp)%R) expScores.

Definition Rsum (xs : list R) : R := fold_right Rplus 0%R xs.

Definition defaultPrototypes : list string :=
  [ "";
    "A narrative of survival, fear, security, tribal identity, grounding in the material world.";
    "Stories of pleasure, desire, creativity, emotional flow, relationships, and sensual abundance.";
    "Themes of personal power, will, confidence, ego, anger, control, and fiery ambition.";
    "Tales of love, compassion, connection, forgiveness, empathy, and heart-centered unity.";
    "Expression of truth, voice, communication, authenticity, clarity, and creative speech.";
    "Intuitive vision, insight, awareness, discernment, third-eye perception, and inner knowing.";
    "Transcendence, divine unity, surrender, cosmic consciousness, crown awakening, and oneness."
  ]%string.

(** ** Concrete inputs *)

(** The vector [[1/7, 1/7, 1/7, 1/7, 1/7, 1/7, 1/7]]. *)
Definition uniformVector {num : Type} {N : Number num} : list num :=
  repeat (ndiv (ofZ 1) (ofZ 7)) 7.

(** A float worker whose embedder rejects one text and maps every other text
    to the same two-component vector. *)
Definition pickyEmbedder : @Embedder float :=
  fun text =>
    if String.eqb text "Second sentence right here."
    then None
    else Some [PrimFloat.one; PrimFloat.zero].

Definition readyWorker : @state float :=
  mkState (Some pickyEmbedder) defaultLabels defaultPrototypes
    (Some (repeat [PrimFloat.one; PrimFloat.zero] 7)) [] [].

Definition sevenLabels : list string :=
  [ "L1"; "L2"; "L3"; "L4"; "L5"; "L6"; "L7" ]%string.

(** A worker on exact reals whose embedder maps every text to the vector
    of 384 ones. *)
Definition onesEmbedder : @Embedder xreal :=
  fun _ => Some (repeat (Fin 1) 384).

Definition idealWorker : @state xreal :=
  mkState (Some onesEmbedder) defaultLabels defaultPrototypes
    (Some (repeat (repeat (Fin 1) 384) 7)) [] [].






(** ** Further notions: propagation and table verification *)

(** The loop of [propagateNarrative] without its trace: the accumulator
    after [chain], or the exception the loop throws. *)
Fixpoint propagateState (tbl : table) (accumulator : entry) (chain : list Z)
  : result entry :=
  match chain with
  | [] => Ok accumulator
  | nextDim :: rest =>
      if (nextDim <? 1) || (nextDim >? 7) then Throw (InvalidDimension nextDim)
      else
        product <- lookup tbl (snd accumulator) nextDim ;;
        match product with
        | None => Throw (InvalidMultiplication (snd accumulator) nextDim)
        | Some (s, k) => propagateState tbl (fst accumulator * s, k) rest
        end
  end.

(** The verbose trace entries that follow step [i] from state [st]. *)
Fixpoint traceFrom (tbl : table) (i : Z) (st : entry) (chain : list Z) : list step :=
  match chain with
  | [] => []
  | n :: rest =>
      let st' := transition tbl st n in
      mkStep (i + 1) (Some n) (fst st') (snd st') :: traceFrom tbl (i + 1) st' rest
  end.

(** A state with its sign multiplied by [sg]. *)
Definition scaleSign (sg : Z) (st : entry) : entry := (sg * fst st, snd st).

(** The test of the anti-commutativity loop of [verifyFanoStructure] on the
    pair [(i, j)]: both entries are there and differ in target or are not of
    opposite sign. *)
Definition violatesAntiCommutativity (tbl : table) (ij : Z * Z) : bool :=
  match lookup tbl (fst ij) (snd ij), lookup tbl (snd ij) (fst ij) with
  | Ok (Some (s1, k1)), Ok (Some (s2, k2)) => negb (k1 =? k2) || negb (s1 =? - s2)
  | _, _ => false
  end.

(** Rows 1..7 of the table are arrays. *)
Definition rowsPresent (tbl : table) : bool :=
  forallb (fun i => match js_nth tbl i with Some (Some _) => true | _ => false end)
          (zrange 1 7).

(** ** Further notions: the chunker *)

(** The last character of [s] is a terminator. *)
Fixpoint endsWithTerminator (s : string) : bool :=
  match s with
  | EmptyString => false
  | String c EmptyString => isTerminator c
  | String _ rest => endsWithTerminator rest
  end.

(** The text of the match in progress. *)
Definition pendingMatch (st : scanState) : string :=
  match st with
  | Between => EmptyString
  | InBody m | InPunct m => m
  end.

(** A state the scan can be in: the body of a match has no terminator. *)
Definition scanStateOk (st : scanState) : bool :=
  match st with
  | InBody m => allChars notTerminator m
  | _ => true
  end.

(** A sentence as the pattern matches it: characters other than
    terminators, at least one, then terminators, at least one. *)
Definition sentenceShaped (s : string) : Prop :=
  exists body punct,
    s = (body ++ punct)%string
    /\ body <> EmptyString /\ allChars notTerminator body = true
    /\ punct <> EmptyString /\ allChars isTerminator punct = true.

(** What the scan state holds is the beginning of a sentence. *)
Definition scanStateShaped (st : scanState) : Prop :=
  match st with
  | Between => True
  | InBody m => m <> EmptyString /\ allChars notTerminator m = true
  | InPunct m => sentenceShaped m
  end.

(** ** Further notions: the worker's state *)

(** The embeddings of the descriptions [ps] up to the first one the embedder
    rejects, and whether it accepted them all. *)
Fixpoint embedWhile {num : Type} (f : @Embedder num) (ps : list string)
  : list (@embedding num) * bool :=
  match ps with
  | [] => ([], true)
  | p :: rest =>
      match f p with
      | Some v => let '(es, ok) := embedWhile f rest in (v :: es, ok)
      | None => ([], false)
      end
  end.

(** The 0-based positions of the bits set in [mask], among the low 7. *)
Definition bitsOf (mask : Z) : list Z :=
  filter (fun i => negb (Z.land mask (Z.shiftl 1 i) =? 0)) (zrange 0 7).

Section DiagnosticNotions.

Context {num : Type} {N : Number num}.

(** The mass of the subset [mask]: the entries at its positions, added from
    0 in ascending order of position. *)
Definition subsetSum (vector : list num) (mask : Z) : num :=
  fold_left (fun sum i => nadd sum (at_ vector i)) (bitsOf mask) (ofZ 0).

End DiagnosticNotions.

(** A number that is zero or not a number. *)
Definition zeroOrNaN (x : xreal) : Prop := x = Fin 0 \/ x = NaN.

(** ** classifyText: the dominant dimension *)

Section Dominant.

Context {num : Type} {N : Number num}.





End Dominant.

(** ** analyzeNarrativeTrajectory *)

Record trajectory : Type := mkTrajectory {
  trajectory_name : string;
  trajectory_chain : list Z;
  trajectory_result : propagation
}.

Record analysis : Type := mkAnalysis {
  startDimension : Z;
  startLabel : option string;
  trajectories : list trajectory
}.

(** What [analyzeNarrativeTrajectory] throws: an exception of
    [propagateNarrative] or of a property read, or the error of the chain
    [[undefined, undefined, undefined]], whose element passes the range
    check of [propagateNarrative] and is no index of a row. *)
Inductive analysisError : Type :=
| Thrown (e : error)
| UndefinedMultiplication (i : Z).  (* "Invalid octonion multiplication: ei * eundefined" *)

(** [l.slice(0, e)] *)
Definition sliceTo {A : Type} (l : list A) (e : Z) : list A :=
  firstn (Z.to_nat (if e <? 0 then Z.max (Z.of_nat (List.length l) + e) 0 else e)) l.

Section Trajectory.

Context {num : Type} {N : Number num}.

(** An entry [{ value, dim, label }] of the ranking. *)
Record ranked : Type := mkRanked {
  ranked_value : num;
  ranked_dim : Z;
  ranked_label : option string
}.

(** [vector.map((v, i) => ({ value: v, dim: i + 1, label: currentLabels[i] }))] *)
Definition rankEntries (currentLabels : list string) (vector : list num) : list ranked :=
  map (fun '(i, v) => mkRanked v (i + 1) (js_nth currentLabels i))
      (combine (zrange 0 (List.length vector)) vector).

(** [.sort((a, b) => b.value - a.value)].  The sort is stable: [a] stays
    before a later [b] unless the comparator is positive on [(a, b)].  Where
    the comparator is not consistent (a NaN among the values) an engine may
    order the entries otherwise. *)
Fixpoint insertRanked (a : ranked) (sorted : list ranked) : list ranked :=
  match sorted with
  | [] => [a]
  | b :: rest =>
      if nlt (ofZ 0) (nsub (ranked_value b) (ranked_value a))
      then b :: insertRanked a rest
      else a :: b :: rest
  end.

Definition sortDescending (entries : list ranked) : list ranked :=
  fold_right insertRanked [] entries.

(** The body of [analyzeNarrativeTrajectory] after the sort. *)
Definition trajectoriesOf (tbl : table) (currentLabels : list string)
    (sorted : list ranked) (maxSteps : Z) : analysis + analysisError :=
  match sorted with
  | [] => inr (Thrown TypeError)                       (* sorted[0].dim *)
  | first :: _ =>
      let startDim := ranked_dim first in
      let topDims := map ranked_dim (firstn 3 (tl sorted)) in
      let linearChain := sliceTo topDims maxSteps in
      match propagateNarrative tbl currentLabels startDim linearChain true with
      | Throw e => inr (Thrown e)
      | Ok linear =>
          let cyclicChain := (firstn 2 topDims ++ [startDim])%list in
          match propagateNarrative tbl currentLabels startDim cyclicChain true with
          | Throw e => inr (Thrown e)
          | Ok cyclic =>
              match topDims with
              | [] =>
                  (* new Array(3).fill(undefined) *)
                  match js_nth tbl startDim with
                  | Some (Some _) => inr (UndefinedMultiplication startDim)
                  | _ => inr (Thrown TypeError)
                  end
              | top :: _ =>
                  let resonantChain := [top; top; top] in
                  match propagateNarrative tbl currentLabels startDim resonantChain true with
                  | Throw e => inr (Thrown e)
                  | Ok resonant =>
                      inl (mkAnalysis startDim (js_nth currentLabels (startDim - 1))
                             [ mkTrajectory "Linear Progression" linearChain linear;
                               mkTrajectory "Cyclic Return" cyclicChain cyclic;
                               mkTrajectory "Resonant Amplification" resonantChain resonant ])
                  end
              end
          end
      end
  end.

Definition analyzeNarrativeTrajectory (tbl : table) (currentLabels : list string)
    (vector : list num) (maxSteps : Z) : analysis + analysisError :=
  trajectoriesOf tbl currentLabels (sortDescending (rankEntries currentLabels vector)) maxSteps.

End Trajectory.

(** The three top-ranked dimensions multiply to the real scalar: the table
    sends the first and the second to the third. *)
Definition onLine (tbl : table) (d0 d1 d2 : Z) : bool :=
  match lookup tbl d0 d1 with
  | Ok (Some (_, k)) => k =? d2
  | _ => false
  end.

(** The outcome of the three chains on [octTable], on states alone, for all
    rankings whose first four dimensions are distinct and in range. *)
Definition chainsCheck (d0 d1 d2 d3 : Z) (n : nat) : bool :=
  match lookup octTable d0 d1 with
  | Ok (Some (s, k)) =>
      negb (k =? 0) &&
      if k =? d2
      then
        match propagateState octTable (1, d0) (firstn n [d1; d2; d3]) with
        | Throw TypeError => true
        | Throw _ => false
        | Ok _ =>
            match propagateState octTable (1, d0) [d1; d2; d0] with
            | Throw TypeError => true
            | _ => false
            end
        end
      else
        match propagateState octTable (1, d0) (firstn n [d1; d2; d3]),
              propagateState octTable (1, d0) [d1; d2; d0],
              propagateState octTable (1, d0) [d1; d1; d1] with
        | Ok _, Ok _, Ok st => (fst st =? - s) && (snd st =? k)
        | _, _, _ => false
        end
  | _ => false
  end.

Definition distinct4 (d0 d1 d2 d3 : Z) : bool :=
  negb (d0 =? d1) && negb (d0 =? d2) && negb (d0 =? d3)
  && negb (d1 =? d2) && negb (d1 =? d3) && negb (d2 =? d3).

(** ** coherence-analyzer.js: CoherenceAnalyzer *)

Section Coherence.

Context {num : Type} {N : Number num}.

Record CoherenceAnalyzer : Type := mkCoherenceAnalyzer {
  threshold : num
}.

(** [constructor() { this.threshold = 0.8; }] *)
Definition newCoherenceAnalyzer : CoherenceAnalyzer :=
  mkCoherenceAnalyzer (ofDec 8 10).




End Coherence.

(** ** provenance-tracker.js: ProvenanceTracker.simpleHash *)

(** [ToInt32]: an integer as a signed 32-bit integer. *)
Definition toInt32 (x : Z) : Z := (x + 2147483648) mod 4294967296 - 2147483648.

(** [a << n] and [a & b] on numbers that hold integers. *)
Definition shiftLeft (a n : Z) : Z := toInt32 (Z.shiftl (toInt32 a) (Z.land n 31)).

Definition bitAnd (a b : Z) : Z := toInt32 (Z.land (toInt32 a) (toInt32 b)).

(** The loop of [simpleHash] over the UTF-16 code units
    [str.charCodeAt(0)], [str.charCodeAt(1)], ... of [str]. *)
Definition hashLoop (codes : list Z) : Z :=
  fold_left (fun hash char =>
               let hash := shiftLeft hash 5 - hash + char in
               bitAnd hash hash)
            codes 0.

(** The digit of value [d] in base 36: [0]..[9], [a]..[z]. *)
Definition digit36 (d : Z) : ascii :=
  ascii_of_nat (Z.to_nat (if d <? 10 then 48 + d else 87 + d)).

Fixpoint digits36 (fuel : nat) (n : Z) (acc : string) : string :=
  match fuel with
  | O => acc
  | S fuel' =>
      let acc' := String (digit36 (n mod 36)) acc in
      if n / 36 =? 0 then acc' else digits36 fuel' (n / 36) acc'
  end.

(** [n.toString(36)] for an integer [n] that is not negative. *)
Definition toString36 (n : Z) : string :=
  digits36 (S (Z.to_nat (Z.log2 n))) n "".

Definition simpleHash (codes : list Z) : string :=
  toString36 (Z.abs (hashLoop codes)).

(** The code units of a string of Latin-1 characters. *)
Definition codeUnits (str : string) : list Z :=
  map (fun c => Z.of_nat (nat_of_ascii c)) (list_ascii_of_string str).

(** The polynomial [codes[0] * 31^(n-1) + ... + codes[n-1]]. *)
Definition polynomial31 (codes : list Z) : Z :=
  fold_left (fun h c => 31 * h + c) codes 0.

(** The value of a digit and of a numeral in base 36. *)
Definition digitValue (c : ascii) : Z :=
  let n := Z.of_nat (nat_of_ascii c) in
  if n <? 58 then n - 48 else n - 87.

Definition value36 (numeral : string) : Z :=
  fold_left (fun v c => v * 36 + digitValue c) (list_ascii_of_string numeral) 0.

(** * Part II: properties *)

(** ** The propagation table *)

Lemma range_1_7 (i : Z) :
  1 <= i <= 7 -> i = 1 \/ i = 2 \/ i = 3 \/ i = 4 \/ i = 5 \/ i = 6 \/ i = 7.
Proof. lia. Qed.

Ltac each_1_7 H :=
  apply range_1_7 in H;
  repeat (destruct H as [H | H]); subst.

Lemma inRange_spec (n : Z) : inRange n = true <-> 1 <= n <= 7.
Proof. unfold inRange. rewrite andb_true_iff, !Z.leb_le. tauto. Qed.

Lemma inRange_guard (n : Z) : (n <? 1) || (n >? 7) = negb (inRange n).
Proof.
  unfold inRange. rewrite Z.gtb_ltb, negb_andb, !Z.leb_antisym, !negb_involutive.
  reflexivity.
Qed.

Lemma octTable_antisymmetric_diagonal (i : Z) :
  1 <= i <= 7 ->
  (forall j, 1 <= j <= 7 -> i <> j ->
     exists s t, lookup octTable i j = Ok (Some (s, t)) /\
                 lookup octTable j i = Ok (Some (- s, t)))
  /\ lookup octTable i i = Ok (Some (-1, 0)).
Proof.
  intros Hi. split.
  - intros j Hj Hne. each_1_7 Hi; each_1_7 Hj;
      try (exfalso; apply Hne; reflexivity);
      vm_compute; eexists; eexists; split; reflexivity.
  - each_1_7 Hi; reflexivity.
Qed.

(** C9: for all [i <> j] in 1..7 the entries [octTable[i][j]] and
    [octTable[j][i]] have the same target index and opposite signs, and for
    every [i] in 1..7 the diagonal entry [octTable[i][i]] is [(-1, 0)]. *)
Theorem octTable_antisymmetric_self_annihilating (i j : Z) :
  1 <= i <= 7 -> 1 <= j <= 7 ->
  (i <> j ->
   exists s t, lookup octTable i j = Ok (Some (s, t)) /\
               lookup octTable j i = Ok (Some (- s, t)))
  /\ lookup octTable i i = Ok (Some (-1, 0)).
Proof.
  intros Hi Hj. destruct (octTable_antisymmetric_diagonal i Hi) as [Hanti Hdiag].
  split; [intros Hne; exact (Hanti j Hj Hne) | exact Hdiag].
Qed.

Lemma octTable_antisymmetric_self_annihilating_witness :
  (3 <> 5 ->
   exists s t, lookup octTable 3 5 = Ok (Some (s, t)) /\
               lookup octTable 5 3 = Ok (Some (- s, t)))
  /\ lookup octTable 3 3 = Ok (Some (-1, 0)).
Proof.
  apply (octTable_antisymmetric_self_annihilating 3 5); lia.
Defined.

(** ** verifyFanoStructure *)

Lemma js_nth_In {A : Type} (a : list A) (i : Z) (x : A) :
  js_nth a i = Some x -> In x a.
Proof.
  unfold js_nth. destruct (i <? 0); [discriminate|]. apply nth_error_In.
Qed.

Lemma lookup_In (tbl : table) (i j : Z) (e : entry) :
  lookup tbl i j = Ok (Some e) ->
  exists r, In (Some r) tbl /\ In (Some e) r.
Proof.
  unfold lookup. destruct (js_nth tbl i) as [[r|]|] eqn:Hr; try discriminate.
  destruct (js_nth r j) as [[e'|]|] eqn:He; try discriminate.
  intros [= <-]. exists r. split; eapply js_nth_In; eassumption.
Qed.

Lemma signs_unit_lookup (tbl : table) (i j s t : Z) :
  signs_unit tbl = true -> lookup tbl i j = Ok (Some (s, t)) -> s = 1 \/ s = -1.
Proof.
  intros Hs Hl. apply lookup_In in Hl as (r & Hr & He).
  unfold signs_unit in Hs. rewrite forallb_forall in Hs.
  specialize (Hs _ Hr). simpl in Hs. rewrite forallb_forall in Hs.
  specialize (Hs _ He). simpl in Hs.
  apply orb_true_iff in Hs as [H | H]; apply Z.eqb_eq in H; auto.
Qed.

Lemma lookup_cases (tbl : table) (i j : Z) :
  lookup tbl i j = Throw TypeError \/ exists o, lookup tbl i j = Ok o.
Proof.
  unfold lookup. destruct (js_nth tbl i) as [[r|]|]; auto.
  right. destruct (js_nth r j) as [[e|]|]; eauto.
Qed.

Lemma lookup_row_present (tbl : table) (i j : Z) (r : row) :
  js_nth tbl i = Some (Some r) -> exists o, lookup tbl i j = Ok o.
Proof.
  intros H. unfold lookup. rewrite H. destruct (js_nth r j) as [[e|]|]; eauto.
Qed.

Lemma fanoCycleStep_silent (tbl : table) (v : verdict) (cyc : Z * Z * Z) :
  signs_unit tbl = true ->
  fanoCycleStep tbl v cyc = Ok v \/ fanoCycleStep tbl v cyc = Throw TypeError.
Proof.
  intros Hs. destruct cyc as [[a b] c]. unfold fanoCycleStep.
  destruct (lookup_cases tbl a b) as [-> | [ab Hab]]; [right; reflexivity|].
  destruct (lookup_cases tbl b c) as [Hbc | [bc Hbc]]; rewrite Hab; simpl;
    rewrite Hbc; simpl; [right; reflexivity|].
  destruct (lookup_cases tbl c a) as [Hca | [ca Hca]]; rewrite Hca; simpl;
    [right; reflexivity|].
  left.
  destruct ab as [[s1 t1]|]; [|reflexivity].
  destruct bc as [[s2 t2]|]; [|reflexivity].
  destruct ca as [[s3 t3]|]; [|reflexivity].
  destruct (signs_unit_lookup _ _ _ _ _ Hs Hab) as [-> | ->];
  destruct (signs_unit_lookup _ _ _ _ _ Hs Hbc) as [-> | ->];
  destruct (signs_unit_lookup _ _ _ _ _ Hs Hca) as [-> | ->]; reflexivity.
Qed.

Lemma forEach_silent {X : Type} (body : verdict -> X -> result verdict) (xs : list X) :
  (forall v x, In x xs -> body v x = Ok v \/ body v x = Throw TypeError) ->
  forall v, forEach body v xs = Ok v \/ forEach body v xs = Throw TypeError.
Proof.
  induction xs as [|x xs IH]; intros Hb v; simpl; [left; reflexivity|].
  destruct (Hb v x (or_introl eq_refl)) as [-> | ->]; simpl.
  - apply IH. intros v' x' Hin. apply Hb. right. exact Hin.
  - right. reflexivity.
Qed.

Lemma forEach_total {X : Type} (body : verdict -> X -> result verdict) (xs : list X) :
  (forall v x, In x xs -> body v x = Ok v) ->
  forall v, forEach body v xs = Ok v.
Proof.
  induction xs as [|x xs IH]; intros Hb v; simpl; [reflexivity|].
  rewrite (Hb v x (or_introl eq_refl)). simpl.
  apply IH. intros v' x' Hin. apply Hb. right. exact Hin.
Qed.

Lemma fanoCycles_in_range (a b c : Z) :
  In (a, b, c) fanoCycles -> 1 <= a <= 7 /\ 1 <= b <= 7 /\ 1 <= c <= 7.
Proof.
  unfold fanoCycles. simpl. intros H.
  repeat (destruct H as [H | H]; [inversion H; subst; lia|]). contradiction.
Qed.

(** C10: on a table whose signs are all [-1] or [+1], the product of the
    three signs around a cycle is [-1] or [+1], so the cycle loop of
    [verifyFanoStructure] never adds a warning and never clears [valid]: it
    leaves the verdict of the anti-commutativity loop as it is (or stops on
    a row that is not there, and completes when rows 1..7 are there). *)
Theorem fano_cycle_check_never_warns (tbl : table) :
  signs_unit tbl = true ->
  (forall a b c s1 t1 s2 t2 s3 t3,
      lookup tbl a b = Ok (Some (s1, t1)) ->
      lookup tbl b c = Ok (Some (s2, t2)) ->
      lookup tbl c a = Ok (Some (s3, t3)) ->
      s1 * s2 * s3 = -1 \/ s1 * s2 * s3 = 1)
  /\ (forall v, checkFanoCycles tbl v = Ok v \/ checkFanoCycles tbl v = Throw TypeError)
  /\ ((forall i, 1 <= i <= 7 -> exists r, js_nth tbl i = Some (Some r)) ->
      forall v, checkFanoCycles tbl v = Ok v)
  /\ (verifyFanoStructure tbl = checkAntiCommutativity tbl (true, [])
      \/ verifyFanoStructure tbl = Throw TypeError).
Proof.
  intros Hs. split; [|split; [|split]].
  - intros a b c s1 t1 s2 t2 s3 t3 Hab Hbc Hca.
    destruct (signs_unit_lookup _ _ _ _ _ Hs Hab) as [-> | ->];
    destruct (signs_unit_lookup _ _ _ _ _ Hs Hbc) as [-> | ->];
    destruct (signs_unit_lookup _ _ _ _ _ Hs Hca) as [-> | ->]; lia.
  - intros v. apply forEach_silent. intros v' x _. apply fanoCycleStep_silent, Hs.
  - intros Hrows v. apply forEach_total. intros v' [[a b] c] Hin.
    destruct (fanoCycleStep_silent tbl v' (a, b, c) Hs) as [H | H]; [exact H|].
    exfalso. apply fanoCycles_in_range in Hin as (Ha & Hb & Hc).
    destruct (Hrows a Ha) as [ra Hra]. destruct (Hrows b Hb) as [rb Hrb].
    destruct (Hrows c Hc) as [rc Hrc].
    destruct (lookup_row_present tbl a b ra Hra) as [o1 H1].
    destruct (lookup_row_present tbl b c rb Hrb) as [o2 H2].
    destruct (lookup_row_present tbl c a rc Hrc) as [o3 H3].
    unfold fanoCycleStep in H. rewrite H1 in H; simpl in H.
    rewrite H2 in H; simpl in H. rewrite H3 in H; simpl in H.
    destruct o1 as [[? ?]|]; destruct o2 as [[? ?]|]; destruct o3 as [[? ?]|];
      try discriminate.
    destruct (_ && _); discriminate.
  - unfold verifyFanoStructure.
    destruct (checkAntiCommutativity tbl (true, [])) as [v|e] eqn:Hv; simpl.
    + destruct (forEach_silent (fanoCycleStep tbl) fanoCycles
                  (fun v' x _ => fanoCycleStep_silent tbl v' x Hs) v) as [H | H];
        unfold checkFanoCycles; rewrite H; auto.
    + left. reflexivity.
Qed.

Lemma fano_cycle_check_never_warns_witness :
  signs_unit octTable = true
  /\ (verifyFanoStructure octTable = checkAntiCommutativity octTable (true, [])
      \/ verifyFanoStructure octTable = Throw TypeError).
Proof.
  split; [reflexivity|].
  exact (proj2 (proj2 (proj2 (fano_cycle_check_never_warns octTable eq_refl)))).
Defined.

(** ** propagateNarrative *)

Lemma octTable_entry (d n : Z) :
  1 <= d <= 7 -> 1 <= n <= 7 ->
  exists s k, lookup octTable d n = Ok (Some (s, k)) /\
              (s = 1 \/ s = -1) /\ 0 <= k <= 7 /\ (k = 0 <-> d = n).
Proof.
  intros Hd Hn. each_1_7 Hd; each_1_7 Hn;
    vm_compute; eexists; eexists;
    (split; [reflexivity | split; [auto | split; [split; discriminate | split; intros; congruence ]]]).
Qed.

Lemma octTable_row0 (n : Z) : lookup octTable 0 n = Throw TypeError.
Proof. reflexivity. Qed.

Lemma forallb_inRange_In (chain : list Z) (n : Z) :
  In n chain -> inRange n = false -> forallb inRange chain = false.
Proof.
  intros Hin Hn. destruct (forallb inRange chain) eqn:H; [|reflexivity].
  rewrite forallb_forall in H. rewrite (H n Hin) in Hn. discriminate.
Qed.

(** What the loop does from any state whose symbol is in 0..7. *)
Lemma propagateLoop_spec (verbose : bool) (chain : list Z) :
  forall (i sg d : Z) (trace : list step),
    0 <= d <= 7 -> (sg = 1 \/ sg = -1) ->
    match propagateLoop octTable verbose i chain (sg, d) trace with
    | Ok (acc, _) =>
        forallb inRange chain = true /\
        scalarBeforeEnd octTable (sg, d) chain = false /\
        acc = run octTable (sg, d) chain /\
        (fst acc = 1 \/ fst acc = -1) /\ 0 <= snd acc <= 7
    | Throw (InvalidDimension n) =>
        In n chain /\ inRange n = false
    | Throw TypeError =>
        forallb inRange chain = false \/
        scalarBeforeEnd octTable (sg, d) chain = true
    | Throw _ => False
    end.
Proof.
  induction chain as [|n rest IH]; intros i sg d trace Hd Hsg.
  - simpl. auto.
  - cbn [propagateLoop]. rewrite inRange_guard.
    destruct (inRange n) eqn:Hn; cbn [negb].
    + destruct (Z.eq_dec d 0) as [-> | Hd0].
      * rewrite octTable_row0. cbn. right. reflexivity.
      * apply inRange_spec in Hn as Hn'.
        destruct (octTable_entry d n ltac:(lia) Hn') as (s & k & Hl & Hs & Hk & _).
        rewrite Hl. cbn [bind].
        assert (Ht : transition octTable (sg, d) n = (sg * s, k))
          by (unfold transition; cbn [fst snd]; rewrite Hl; reflexivity).
        assert (Hsg' : sg * s = 1 \/ sg * s = -1) by lia.
        specialize (IH (i + 1) (sg * s) k
                       (if verbose
                        then trace ++ [mkStep (i + 1) (Some n) (fst (sg * s, k)) (snd (sg * s, k))]
                        else trace) Hk Hsg').
        cbn [forallb scalarBeforeEnd run fold_left fst snd]. rewrite Ht, Hn.
        replace (d =? 0) with false by (symmetry; apply Z.eqb_neq; exact Hd0).
        cbn [andb orb].
        destruct (propagateLoop octTable verbose (i + 1) rest (sg * s, k) _)
          as [[acc tr] | e]; [exact IH|].
        destruct e; try exact IH. destruct IH as [Hin Hr]. split; [right; exact Hin | exact Hr].
    + split; [left; reflexivity | exact Hn].
Qed.

Lemma propagateNarrative_unfold (labels : list string) (startDim : Z)
    (chain : list Z) (verbose : bool) :
  exists trace0,
    propagateNarrative octTable labels startDim chain verbose =
    match propagateLoop octTable verbose 0 chain (1, startDim) trace0 with
    | Ok (acc, trace) =>
        Ok (mkPropagation (fst acc) (snd acc) (labelOf labels (snd acc))
              (if verbose then Some trace else None))
    | Throw e => Throw e
    end.
Proof.
  unfold propagateNarrative.
  exists (if verbose then [mkStep 0 None 1 startDim] else []).
  destruct (propagateLoop octTable verbose 0 chain (1, startDim) _) as [[acc tr]|e];
    reflexivity.
Qed.

(** The first failure of the loop: after a prefix that is consumed without
    failure, an element outside 1..7 throws the invalid-dimension error
    that names it (the range check comes before the table is read), and an
    element of 1..7 consumed from symbol 0 throws the [TypeError] of the
    [null] row. *)
Lemma propagateLoop_first_failure (verbose : bool) (pre : list Z) (n : Z)
    (post : list Z) :
  forall (i sg d : Z) (trace : list step),
    0 <= d <= 7 ->
    forallb inRange pre = true ->
    scalarBeforeEnd octTable (sg, d) pre = false ->
    (inRange n = false ->
     propagateLoop octTable verbose i (pre ++ n :: post) (sg, d) trace
     = Throw (InvalidDimension n))
    /\ (inRange n = true -> snd (run octTable (sg, d) pre) = 0 ->
        propagateLoop octTable verbose i (pre ++ n :: post) (sg, d) trace
        = Throw TypeError).
Proof.
  induction pre as [|m pre IH]; intros i sg d trace Hd Hall Hsc.
  - cbn [app propagateLoop run fold_left snd]. rewrite inRange_guard. split.
    + intros ->. reflexivity.
    + intros -> ->. cbn [negb]. rewrite octTable_row0. reflexivity.
  - cbn [forallb] in Hall. apply andb_prop in Hall as [Hm Hall].
    cbn [scalarBeforeEnd snd] in Hsc. apply orb_false_elim in Hsc as [Hd0 Hsc].
    apply Z.eqb_neq in Hd0. apply inRange_spec in Hm as Hm'.
    destruct (octTable_entry d m ltac:(lia) Hm') as (s & k & Hl & _ & Hk & _).
    assert (Ht : transition octTable (sg, d) m = (sg * s, k))
      by (unfold transition; cbn [fst snd]; rewrite Hl; reflexivity).
    rewrite Ht in Hsc.
    cbn [app propagateLoop run fold_left]. rewrite inRange_guard, Hm, Ht. cbn [negb].
    rewrite Hl. cbn [bind]. apply IH; assumption.
Qed.

(** C7, as the code has it: from a start symbol in 1..7, [propagateNarrative]
    returns a result exactly when every chain element is in 1..7 and no
    element is consumed from symbol 0 (reached through a diagonal entry);
    the result is then the state obtained by the transitions
    [(sign * tableSign, tableTarget)], with a sign in [{-1, 1}] and a symbol
    in 0..7; an invalid-dimension failure names a chain element outside
    1..7, and no in-range lookup from a symbol in 1..7 is ever missing.  An
    element outside 1..7 makes the propagation fail: with the
    invalid-dimension error that names it when the elements before it are
    in 1..7 and none of them is consumed from symbol 0; an element of 1..7
    that is the first to be consumed from symbol 0 fails with the
    [TypeError] of the [null] row. *)
Theorem propagateNarrative_outcome (labels : list string) (startDim : Z)
    (chain : list Z) (verbose : bool) :
  1 <= startDim <= 7 ->
  ((exists p, propagateNarrative octTable labels startDim chain verbose = Ok p) <->
   forallb inRange chain = true /\
   scalarBeforeEnd octTable (1, startDim) chain = false)
  /\ (forall p, propagateNarrative octTable labels startDim chain verbose = Ok p ->
        (finalSign p, finalDimension p) = run octTable (1, startDim) chain /\
        (finalSign p = 1 \/ finalSign p = -1) /\ 0 <= finalDimension p <= 7)
  /\ (forall n, propagateNarrative octTable labels startDim chain verbose
                = Throw (InvalidDimension n) ->
        In n chain /\ ~ 1 <= n <= 7)
  /\ (forall e, propagateNarrative octTable labels startDim chain verbose = Throw e ->
        e = TypeError \/ exists n, e = InvalidDimension n)
  /\ (forall pre n post,
        chain = (pre ++ n :: post)%list ->
        forallb inRange pre = true ->
        scalarBeforeEnd octTable (1, startDim) pre = false ->
        (inRange n = false ->
         propagateNarrative octTable labels startDim chain verbose
         = Throw (InvalidDimension n))
        /\ (inRange n = true -> snd (run octTable (1, startDim) pre) = 0 ->
            propagateNarrative octTable labels startDim chain verbose
            = Throw TypeError)).
Proof.
  intros Hs.
  destruct (propagateNarrative_unfold labels startDim chain verbose) as [trace0 ->].
  assert (Hfirst : forall pre n post,
             chain = (pre ++ n :: post)%list ->
             forallb inRange pre = true ->
             scalarBeforeEnd octTable (1, startDim) pre = false ->
             (inRange n = false ->
              match propagateLoop octTable verbose 0 chain (1, startDim) trace0 with
              | Ok (acc, trace) =>
                  Ok (mkPropagation (fst acc) (snd acc) (labelOf labels (snd acc))
                        (if verbose then Some trace else None))
              | Throw e => Throw e
              end = Throw (InvalidDimension n))
             /\ (inRange n = true -> snd (run octTable (1, startDim) pre) = 0 ->
                 match propagateLoop octTable verbose 0 chain (1, startDim) trace0 with
                 | Ok (acc, trace) =>
                     Ok (mkPropagation (fst acc) (snd acc) (labelOf labels (snd acc))
                           (if verbose then Some trace else None))
                 | Throw e => Throw e
                 end = Throw TypeError)).
  { intros pre n post -> Hall Hsc.
    destruct (propagateLoop_first_failure verbose pre n post 0 1 startDim trace0
                ltac:(lia) Hall Hsc) as [Hout Hscalar].
    split.
    - intros Hn. rewrite (Hout Hn). reflexivity.
    - intros Hn H0. rewrite (Hscalar Hn H0). reflexivity. }
  pose proof (propagateLoop_spec verbose chain 0 1 startDim trace0
                ltac:(lia) (or_introl eq_refl)) as H.
  destruct (propagateLoop octTable verbose 0 chain (1, startDim) trace0)
    as [[acc tr] | e].
  - destruct H as (Hall & Hsc & Hacc & Hsign & Hdim).
    split; [|split; [|split; [|split]]].
    + split; [intros _; split; assumption | intros _; eexists; reflexivity].
    + intros p [= <-]. cbn [finalSign finalDimension].
      rewrite <- Hacc. destruct acc; auto.
    + intros n [=].
    + intros e [=].
    + exact Hfirst.
  - split; [|split; [|split; [|split]]].
    + split; [intros [p [=]]|]. intros [Hall Hsc]. exfalso.
      destruct e; try contradiction.
      * destruct H as [Hin Hn]. rewrite (forallb_inRange_In chain nextDim Hin Hn) in Hall.
        discriminate.
      * destruct H as [H | H]; congruence.
    + intros p [=].
    + intros n [= ->]. destruct H as [Hin Hn]. split; [exact Hin|].
      intros Hr. apply inRange_spec in Hr. congruence.
    + intros e' [= <-]. destruct e; try contradiction; eauto.
    + exact Hfirst.
Qed.

Lemma propagateNarrative_outcome_witness :
  (exists p, propagateNarrative octTable defaultLabels 1 [2; 3; 2] true = Ok p) <->
  forallb inRange [2; 3; 2] = true /\
  scalarBeforeEnd octTable (1, 1) [2; 3; 2] = false.
Proof.
  exact (proj1 (propagateNarrative_outcome defaultLabels 1 [2; 3; 2] true
                  ltac:(lia))).
Defined.

(** C7 as stated fails: the chain [1, 1] from start symbol 1 has all its
    elements in 1..7, yet the propagation throws: the first step reaches
    symbol 0 through the diagonal entry [(-1, 0)], and the second reads row
    0 of the table, which is [null]. *)
Lemma propagateNarrative_in_range_chain_throws :
  inRange 1 = true /\ forallb inRange [1; 1] = true /\
  propagateNarrative octTable defaultLabels 1 [1; 1] false = Throw TypeError.
Proof. repeat split. Qed.

(** The error of a chain with an element outside 1..7: the element's own,
    unless an earlier element was consumed from symbol 0. *)
Example propagateNarrative_out_of_range :
  propagateNarrative octTable defaultLabels 1 [9] false = Throw (InvalidDimension 9)
  /\ propagateNarrative octTable defaultLabels 1 [1; 9] false
     = Throw (InvalidDimension 9)
  /\ propagateNarrative octTable defaultLabels 1 [1; 1; 9] false = Throw TypeError.
Proof. repeat split. Qed.

(** One and two steps of the loop, from the table entries they read. *)
Lemma propagate_single (labels : list string) (d n sg k : Z) (verbose : bool) :
  inRange n = true ->
  lookup octTable d n = Ok (Some (sg, k)) ->
  finalState (propagateNarrative octTable labels d [n] verbose) = Ok (1 * sg, k).
Proof.
  intros Hn Hl. unfold propagateNarrative. cbn [propagateLoop].
  rewrite inRange_guard, Hn. cbn [negb]. rewrite Hl. reflexivity.
Qed.

Lemma propagate_double (labels : list string) (d a b s1 k s2 m : Z) (verbose : bool) :
  inRange a = true -> inRange b = true ->
  lookup octTable d a = Ok (Some (s1, k)) ->
  lookup octTable k b = Ok (Some (s2, m)) ->
  finalState (propagateNarrative octTable labels d [a; b] verbose)
  = Ok (1 * s1 * s2, m).
Proof.
  intros Ha Hb Hl1 Hl2. unfold propagateNarrative. cbn [propagateLoop].
  rewrite !inRange_guard, Ha. cbn [negb]. rewrite Hl1. cbn [bind].
  rewrite Hb. cbn [negb]. rewrite Hl2. reflexivity.
Qed.

Lemma propagate_from_scalar (labels : list string) (n : Z) (rest : list Z)
    (verbose : bool) :
  inRange n = true ->
  propagateNarrative octTable labels 0 (n :: rest) verbose = Throw TypeError.
Proof.
  intros Hn. unfold propagateNarrative. cbn [propagateLoop].
  rewrite inRange_guard, Hn. reflexivity.
Qed.

Lemma propagate_through_scalar (labels : list string) (d a b s1 : Z) (verbose : bool) :
  inRange a = true -> inRange b = true ->
  lookup octTable d a = Ok (Some (s1, 0)) ->
  propagateNarrative octTable labels d [a; b] verbose = Throw TypeError.
Proof.
  intros Ha Hb Hl. unfold propagateNarrative. cbn [propagateLoop].
  rewrite !inRange_guard, Ha. cbn [negb]. rewrite Hl. cbn [bind].
  rewrite Hb. reflexivity.
Qed.

(** C8, as the code has it: for [s], [a], [b] in 1..7 with [a <> s],
    propagating [[a]] from [s] reaches a state [(sign1, k)] with [k] in
    1..7, propagating [[b]] from [k] reaches [(sign2, m)], and propagating
    [[a, b]] from [s] reaches [(sign1 * sign2, m)].  With [a = s] the first
    step reaches [(-1, 0)], and both the propagation of [[b]] from symbol 0
    and that of [[a, b]] from [s] throw.  In either case the two outcomes
    agree. *)
Theorem propagateNarrative_composition (labels : list string) (s a b : Z)
    (verbose : bool) :
  1 <= s <= 7 -> 1 <= a <= 7 -> 1 <= b <= 7 ->
  (a <> s ->
   exists sign1 k sign2 m,
     finalState (propagateNarrative octTable labels s [a] verbose) = Ok (sign1, k)
     /\ 1 <= k <= 7
     /\ finalState (propagateNarrative octTable labels k [b] verbose) = Ok (sign2, m)
     /\ finalState (propagateNarrative octTable labels s [a; b] verbose)
        = Ok (sign1 * sign2, m))
  /\ (a = s ->
      finalState (propagateNarrative octTable labels s [a] verbose) = Ok (-1, 0)
      /\ propagateNarrative octTable labels 0 [b] verbose = Throw TypeError
      /\ propagateNarrative octTable labels s [a; b] verbose = Throw TypeError)
  /\ finalState (propagateNarrative octTable labels s [a; b] verbose) =
       (st1 <- finalState (propagateNarrative octTable labels s [a] verbose) ;;
        st2 <- finalState (propagateNarrative octTable labels (snd st1) [b] verbose) ;;
        Ok (fst st1 * fst st2, snd st2)).
Proof.
  intros Hs Ha Hb.
  assert (Hia : inRange a = true) by (apply inRange_spec; exact Ha).
  assert (Hib : inRange b = true) by (apply inRange_spec; exact Hb).
  destruct (octTable_entry s a Hs Ha) as (s1 & k & Hl1 & _ & Hk & Hk0).
  pose proof (propagate_single labels s a s1 k verbose Hia Hl1) as H1.
  destruct (Z.eq_dec a s) as [-> | Hne].
  - assert (k = 0) by (apply Hk0; reflexivity). subst k.
    destruct (octTable_antisymmetric_diagonal s Hs) as [_ Hd].
    rewrite Hd in Hl1. injection Hl1 as <-.
    pose proof (propagate_through_scalar labels s s b (-1) verbose Hia Hib Hd) as H2.
    pose proof (propagate_from_scalar labels b [] verbose Hib) as H3.
    split; [intros Hc; contradiction|]. split; [intros _; auto|].
    rewrite H1, H2. cbn [bind snd]. rewrite H3. reflexivity.
  - assert (Hk' : 1 <= k <= 7).
    { destruct (Z.eq_dec k 0) as [E | E]; [|lia].
      exfalso. apply Hne. symmetry. apply Hk0, E. }
    destruct (octTable_entry k b Hk' Hb) as (s2 & m & Hl2 & _ & _ & _).
    pose proof (propagate_single labels k b s2 m verbose Hib Hl2) as H2.
    pose proof (propagate_double labels s a b s1 k s2 m verbose Hia Hib Hl1 Hl2) as H3.
    split; [|split; [intros Hc; contradiction|]].
    + intros _. exists (1 * s1), k, (1 * s2), m.
      rewrite H1, H2, H3. repeat split; try lia. f_equal. f_equal. ring.
    + rewrite H1, H3. cbn [bind snd fst]. rewrite H2. cbn [bind fst snd].
      f_equal. f_equal. ring.
Qed.

Lemma propagateNarrative_composition_witness :
  exists sign1 k sign2 m,
    finalState (propagateNarrative octTable defaultLabels 1 [2] false) = Ok (sign1, k)
    /\ 1 <= k <= 7
    /\ finalState (propagateNarrative octTable defaultLabels k [3] false) = Ok (sign2, m)
    /\ finalState (propagateNarrative octTable defaultLabels 1 [2; 3] false)
       = Ok (sign1 * sign2, m).
Proof.
  apply (propagateNarrative_composition defaultLabels 1 2 3 false); lia.
Defined.

(** C8 as stated fails at [s = a = b = 1]: propagating [[1]] from 1 reaches
    [(-1, 0)], and there is no final state to compare: propagating [[1]]
    from symbol 0 throws and so does propagating [[1, 1]] from 1. *)
Lemma propagateNarrative_composition_through_scalar :
  finalState (propagateNarrative octTable defaultLabels 1 [1] false) = Ok (-1, 0)
  /\ propagateNarrative octTable defaultLabels 0 [1] false = Throw TypeError
  /\ propagateNarrative octTable defaultLabels 1 [1; 1] false = Throw TypeError.
Proof. repeat split. Qed.

(** ** The chunker *)

Lemma append_assoc (a b c : string) : ((a ++ b) ++ c = a ++ (b ++ c))%string.
Proof. induction a as [|x a IH]; simpl; [reflexivity | rewrite IH; reflexivity]. Qed.

Lemma append_empty_r (a : string) : (a ++ "" = a)%string.
Proof. induction a as [|x a IH]; simpl; [reflexivity | rewrite IH; reflexivity]. Qed.

Example sentencesOf_two : sentencesOf "One. Two!? Three"%string = ["One."; " Two!?"]%string.
Proof. reflexivity. Qed.

Example sentencesOf_plain : sentencesOf "no punctuation"%string = ["no punctuation"]%string.
Proof. reflexivity. Qed.

Example sentencesOf_leading : sentencesOf "...a."%string = ["a."]%string.
Proof. reflexivity. Qed.

Example trim_example : trim "  a b  "%string = "a b"%string.
Proof. reflexivity. Qed.

Example chunkText_empty : chunkText 512 100 ""%string = [].
Proof. reflexivity. Qed.

(** *** The scan against the pattern

    The three equations below say what [/[^.!?]+[.!?]+/g] matches: leading
    terminators are skipped; a non-empty run of other characters followed
    by a non-empty run of terminators, taken as far as it goes, is the next
    match; a run of other characters up to the end of the text is no
    match. *)

Lemma scan_body (body : string) :
  allChars notTerminator body = true ->
  forall m rest,
    scanSentences (InBody m) (body ++ rest) = scanSentences (InBody (m ++ body)) rest.
Proof.
  induction body as [|c body IH]; intros Hb m rest.
  - simpl. rewrite append_empty_r. reflexivity.
  - cbn [allChars] in Hb. apply andb_true_iff in Hb as [Hc Hb].
    unfold notTerminator in Hc. apply negb_true_iff in Hc.
    cbn [String.append scanSentences]. rewrite Hc, (IH Hb).
    unfold snoc. rewrite append_assoc. reflexivity.
Qed.

Lemma scan_punct (punct : string) :
  allChars isTerminator punct = true ->
  forall m rest,
    scanSentences (InPunct m) (punct ++ rest)
    = scanSentences (InPunct (m ++ punct)) rest.
Proof.
  induction punct as [|c punct IH]; intros Hp m rest.
  - simpl. rewrite append_empty_r. reflexivity.
  - cbn [allChars] in Hp. apply andb_true_iff in Hp as [Hc Hp].
    cbn [String.append scanSentences]. rewrite Hc, (IH Hp).
    unfold snoc. rewrite append_assoc. reflexivity.
Qed.

Lemma scan_match_end (m rest : string) :
  startsSentence rest = true ->
  scanSentences (InPunct m) rest = m :: scanSentences Between rest.
Proof.
  destruct rest as [|c rest]; intros Hr; [reflexivity|].
  cbn [startsSentence] in Hr. unfold notTerminator in Hr.
  apply negb_true_iff in Hr. cbn [scanSentences]. rewrite Hr. reflexivity.
Qed.

Lemma scan_leading_terminators (punct rest : string) :
  allChars isTerminator punct = true ->
  scanSentences Between (punct ++ rest) = scanSentences Between rest.
Proof.
  induction punct as [|c punct IH]; intros Hp; [reflexivity|].
  cbn [allChars] in Hp. apply andb_true_iff in Hp as [Hc Hp].
  cbn [String.append scanSentences]. rewrite Hc. exact (IH Hp).
Qed.

Lemma scan_first_match (body punct rest : string) :
  body <> ""%string -> allChars notTerminator body = true ->
  punct <> ""%string -> allChars isTerminator punct = true ->
  startsSentence rest = true ->
  scanSentences Between (body ++ punct ++ rest)
  = (body ++ punct)%string :: scanSentences Between rest.
Proof.
  intros Hb0 Hb Hp0 Hp Hr.
  destruct body as [|c body]; [contradiction|].
  destruct punct as [|d punct]; [contradiction|].
  cbn [allChars] in Hb, Hp.
  apply andb_true_iff in Hb as [Hc Hb]. apply andb_true_iff in Hp as [Hd Hp].
  unfold notTerminator in Hc. apply negb_true_iff in Hc.
  cbn [String.append scanSentences]. rewrite Hc.
  rewrite (scan_body body Hb). cbn [String.append scanSentences]. rewrite Hd.
  rewrite (scan_punct punct Hp), (scan_match_end _ rest Hr).
  unfold snoc. cbn [String.append]. rewrite !append_assoc. reflexivity.
Qed.

Lemma scan_unterminated_tail (body : string) :
  allChars notTerminator body = true ->
  scanSentences Between body = [].
Proof.
  intros Hb. destruct body as [|c body]; [reflexivity|].
  cbn [allChars] in Hb. apply andb_true_iff in Hb as [Hc Hb].
  unfold notTerminator in Hc. apply negb_true_iff in Hc.
  cbn [scanSentences]. rewrite Hc.
  rewrite <- (append_empty_r body), (scan_body body Hb). reflexivity.
Qed.

Lemma joinChunks_app (xs ys : list string) :
  joinChunks (xs ++ ys) = (joinChunks xs ++ joinChunks ys)%string.
Proof.
  induction xs as [|x xs IH]; simpl; [reflexivity|].
  rewrite IH, append_assoc. reflexivity.
Qed.

(** The loop over the sentences neither drops nor reorders a character. *)
Lemma chunkStep_join (maxSize minSize : Z) (sentences chunks : list string)
    (currentChunk : string) :
  let '(chunks', currentChunk') :=
    fold_left (chunkStep maxSize minSize) sentences (chunks, currentChunk) in
  (joinChunks chunks' ++ currentChunk')%string =
  (joinChunks chunks ++ currentChunk ++ joinChunks sentences)%string.
Proof.
  revert chunks currentChunk.
  induction sentences as [|s ss IH]; intros chunks cur.
  - simpl. rewrite append_empty_r. reflexivity.
  - cbn [fold_left chunkStep].
    destruct (strlen (cur ++ s) >? maxSize); [destruct (strlen cur >=? minSize)|].
    + specialize (IH (chunks ++ [cur]) s).
      destruct (fold_left _ ss _) as [chunks' cur']. rewrite IH.
      rewrite joinChunks_app. simpl. rewrite append_empty_r, append_assoc.
      reflexivity.
    + specialize (IH chunks (cur ++ s)%string).
      destruct (fold_left _ ss _) as [chunks' cur']. rewrite IH.
      simpl. rewrite append_assoc. reflexivity.
    + specialize (IH chunks (cur ++ s)%string).
      destruct (fold_left _ ss _) as [chunks' cur']. rewrite IH.
      simpl. rewrite append_assoc. reflexivity.
Qed.

Lemma chunkSentences_join (maxSize minSize : Z) (sentences : list string) :
  joinChunks (chunkSentences maxSize minSize sentences) = joinChunks sentences.
Proof.
  unfold chunkSentences.
  pose proof (chunkStep_join maxSize minSize sentences [] ""%string) as H.
  destruct (fold_left _ sentences _) as [chunks cur]. simpl in H.
  destruct (String.eqb_spec cur ""%string) as [-> | _].
  - rewrite append_empty_r in H. exact H.
  - rewrite joinChunks_app. simpl. rewrite append_empty_r. exact H.
Qed.

(** C2 at the input ["One full sentence here. And a tail without a stop"]:
    the sentence pattern matches ["One full sentence here."] only, the text
    after the last terminator is part of no sentence, so that sentence is
    the one chunk emitted; joined, the chunks differ from the text also when
    white space is disregarded. *)
Theorem chunker_drops_unterminated_tail :
  sentencesOf "One full sentence here. And a tail without a stop"%string
    = ["One full sentence here."%string]
  /\ chunkText 512 100 "One full sentence here. And a tail without a stop"%string
     = ["One full sentence here."%string]
  /\ withoutWhiteSpace
       (joinChunks
          (chunkText 512 100 "One full sentence here. And a tail without a stop"%string))
     = "Onefullsentencehere."%string
  /\ withoutWhiteSpace "One full sentence here. And a tail without a stop"%string
     = "Onefullsentencehere.Andatailwithoutastop"%string
  /\ String.eqb
       (withoutWhiteSpace
          (joinChunks
             (chunkText 512 100
                "One full sentence here. And a tail without a stop"%string)))
       (withoutWhiteSpace "One full sentence here. And a tail without a stop"%string)
     = false.
Proof. repeat split. Qed.

Lemma chunkStep_admissible (maxSize minSize : Z) (all : list string) :
  forall (sentences chunks : list string) (cur : string),
    incl sentences all ->
    Forall (admissible maxSize minSize all) chunks ->
    admissible maxSize minSize all cur ->
    let '(chunks', cur') :=
      fold_left (chunkStep maxSize minSize) sentences (chunks, cur) in
    Forall (admissible maxSize minSize all) chunks' /\
    admissible maxSize minSize all cur'.
Proof.
  induction sentences as [|s ss IH]; intros chunks cur Hincl Hch Hcur.
  - simpl. auto.
  - assert (Hs : In s all) by (apply Hincl; left; reflexivity).
    assert (Hss : incl ss all) by (intros x Hx; apply Hincl; right; exact Hx).
    cbn [fold_left chunkStep].
    destruct (strlen (cur ++ s) >? maxSize) eqn:Hgt;
      [destruct (strlen cur >=? minSize) eqn:Hmin|].
    + apply IH; [exact Hss | | right; left; exact Hs].
      apply Forall_app. split; [exact Hch | constructor; [exact Hcur | constructor]].
    + apply IH; [exact Hss | exact Hch |].
      right; right. exists cur, s. repeat split; [exact Hs|].
      rewrite Z.geb_leb in Hmin. apply Z.leb_gt in Hmin. exact Hmin.
    + apply IH; [exact Hss | exact Hch |].
      left. rewrite Z.gtb_ltb in Hgt. apply Z.ltb_ge in Hgt. exact Hgt.
Qed.

(** C4, as the code has it: with a non-negative [maxChunkSize], every chunk
    emitted has at most [maxChunkSize] characters, or is one whole sentence
    (passed through untruncated), or is an accumulated chunk shorter than
    [minChunkSize] to which one whole sentence was appended (under-sized
    chunks are merged forward, not emitted). *)
Theorem chunk_size_bound (maxSize minSize : Z) (text c : string) :
  0 <= maxSize ->
  In c (chunkText maxSize minSize text) ->
  strlen c <= maxSize
  \/ In c (sentencesOf text)
  \/ exists p s, c = (p ++ s)%string /\ In s (sentencesOf text) /\ strlen p < minSize.
Proof.
  intros Hmax Hin. unfold chunkText, chunkSentences in Hin.
  pose proof (chunkStep_admissible maxSize minSize (sentencesOf text)
                (sentencesOf text) [] ""%string (incl_refl _) (Forall_nil _)
                (or_introl Hmax)) as H.
  destruct (fold_left _ (sentencesOf text) _) as [chunks cur].
  destruct H as [Hch Hcur].
  destruct (String.eqb cur ""%string).
  - rewrite Forall_forall in Hch. exact (Hch c Hin).
  - apply in_app_or in Hin as [Hin | [<- | []]]; [|exact Hcur].
    rewrite Forall_forall in Hch. exact (Hch c Hin).
Qed.

Lemma chunk_size_bound_witness :
  strlen "ab.cdefghijk."%string <= 10
  \/ In "ab.cdefghijk."%string (sentencesOf "ab.cdefghijk."%string)
  \/ exists p s, "ab.cdefghijk."%string = (p ++ s)%string /\
                 In s (sentencesOf "ab.cdefghijk."%string) /\ strlen p < 5.
Proof.
  apply (chunk_size_bound 10 5 "ab.cdefghijk."%string "ab.cdefghijk."%string).
  - lia.
  - simpl. left. reflexivity.
Defined.

(** C4 as stated fails: with bounds (10, 5) the text ["ab.cdefghijk."] has
    the two sentences ["ab."] and ["cdefghijk."], neither longer than 10,
    and is emitted as one chunk of 13 characters: the first sentence is
    shorter than [minChunkSize], so the second is appended to it. *)
Lemma chunk_over_bound_without_long_sentence :
  sentencesOf "ab.cdefghijk."%string = ["ab."; "cdefghijk."]%string
  /\ forallb (fun s => strlen s <=? 10) (sentencesOf "ab.cdefghijk."%string) = true
  /\ chunkText 10 5 "ab.cdefghijk."%string = ["ab.cdefghijk."%string]
  /\ strlen "ab.cdefghijk."%string = 13.
Proof. repeat split. Qed.

(** ** classifyText: failures *)

Section WorkerProperties.

Context {num : Type} {N : Number num}.

#[local] Arguments accumulate : simpl never.
#[local] Arguments zrange : simpl never.
#[local] Arguments repeat : simpl never.
#[local] Arguments chunkText : simpl never.
#[local] Arguments cosineSimilarity : simpl never.
#[local] Arguments softmax : simpl never.
#[local] Arguments computeCohomologyClass : simpl never.
#[local] Arguments zariskiCoverings : simpl never.

Lemma addWarnings_nil (s : @state num) : addWarnings s [] = s.
Proof. destruct s. unfold addWarnings. simpl. rewrite app_nil_r. reflexivity. Qed.

Lemma addWarnings_app (s : @state num) (xs ys : list error) :
  addWarnings (addWarnings s xs) ys = addWarnings s (xs ++ ys).
Proof. unfold addWarnings. simpl. rewrite app_assoc. reflexivity. Qed.

(** The loop over the chunks counts the chunks that embed, logs the ones
    the embedder rejects and changes nothing else. *)
Lemma embedChunks_spec (f : Embedder) (chunks : list string) :
  forall (s : @state num) (acc : list num * Z),
    embedder s = Some f ->
    exists sums,
      embedChunks chunks acc s =
      (addWarnings s (rejectionWarnings f chunks),
       Ok (sums, snd acc + validChunkCount f chunks)).
Proof.
  unfold validChunkCount, rejectionWarnings.
  induction chunks as [|chunk rest IH]; intros s acc Hf.
  - exists (fst acc). simpl. rewrite addWarnings_nil, Z.add_0_r.
    destruct acc; reflexivity.
  - cbn [embedChunks filter]. unfold embeds at 1, rejected at 1.
    destruct (strlen (trim chunk) <? 10) eqn:Hshort; cbn [negb andb].
    + apply IH. exact Hf.
    + unfold bindM, try, callEmbedder, get. cbn -[Z.of_nat Z.add]. rewrite Hf.
      destruct (f (trim chunk)) as [e|] eqn:He; cbn -[Z.of_nat Z.add].
      * destruct (IH s (accumulate (fst acc) e, snd acc + 1) Hf) as [sums Hs].
        exists sums. rewrite Hs. cbn [snd]. do 3 f_equal. lia.
      * unfold bindM, warn, modify.
        destruct (IH (addWarnings s [EmbedderFailure]) acc Hf) as [sums Hs].
        exists sums. fold (addWarnings s [EmbedderFailure]). rewrite Hs.
        rewrite addWarnings_app. reflexivity.
Qed.

(** On an initialised worker (embedder loaded, prototypes embedded) the
    outcome of [classifyText] is decided by the number of chunks that
    embed. *)
Lemma classifyText_eq (s : @state num) (f : Embedder)
    (protos : list embedding) (text : string) (opts : options) :
  embedder s = Some f ->
  prototypeEmbeddings s = Some protos ->
  exists sums,
    classifyText text opts s =
    (addWarnings s (rejectionWarnings f (chunksOf text opts)),
     let validChunks := validChunkCount f (chunksOf text opts) in
     if validChunks =? 0 then Throw NoValidChunks
     else
       let avg := map (fun i => ndiv (at_ sums i) (ofZ validChunks)) (zrange 0 384) in
       let raw := map (fun protoEmb => cosineSimilarity avg protoEmb) protos in
       let v := softmax raw in
       Ok (mkClassification v raw avg (computeCohomologyClass v)
             (Z.of_nat (List.length (zariskiCoverings (currentLabels s) v)))
             validChunks)).
Proof.
  intros Hf Hp. unfold classifyText, chunksOf.
  set (chunks := chunkText _ _ text).
  destruct (embedChunks_spec f chunks s (repeat (ofZ 0) 384, 0) Hf) as [sums Hs].
  exists sums. unfold bindM, get. rewrite Hf, Hp. unfold ret at 1.
  rewrite Hs. cbn [snd]. rewrite Z.add_0_l. cbv zeta.
  destruct (validChunkCount f chunks =? 0); [reflexivity|].
  cbn [prototypeEmbeddings addWarnings]. rewrite Hp. reflexivity.
Qed.

Lemma classifyText_outcome (s : @state num) (f : Embedder)
    (protos : list embedding) (text : string) (opts : options) :
  embedder s = Some f ->
  prototypeEmbeddings s = Some protos ->
  fst (classifyText text opts s)
    = addWarnings s (rejectionWarnings f (chunksOf text opts))
  /\ (validChunkCount f (chunksOf text opts) = 0 ->
      snd (classifyText text opts s) = Throw NoValidChunks)
  /\ (validChunkCount f (chunksOf text opts) <> 0 ->
      exists r, snd (classifyText text opts s) = Ok r /\
                chunksProcessed r = validChunkCount f (chunksOf text opts) /\
                rawVector r = map (cosineSimilarity (avgEmbedding r)) protos /\
                vector r = softmax (rawVector r)).
Proof.
  intros Hf Hp.
  destruct (classifyText_eq s f protos text opts Hf Hp) as [sums ->].
  cbn [fst snd]. cbv zeta. split; [reflexivity|]. split.
  - intros ->. reflexivity.
  - intros Hne. apply Z.eqb_neq in Hne. rewrite Hne.
    eexists. split; [reflexivity|]. cbn [chunksProcessed rawVector vector avgEmbedding].
    auto.
Qed.

(** *** Embedding the prototypes on demand *)

Lemma embedEach_spec (f : Embedder) (ps : list string) :
  forall (s : @state num) (es : list embedding),
    embedder s = Some f ->
    prototypeEmbeddings s = Some es ->
    match embedEach ps s with
    | (s1, Ok _) =>
        embedder s1 = Some f /\
        exists es', prototypeEmbeddings s1 = Some (es ++ es') /\
                    List.length es' = List.length ps
    | (_, Throw _) => True
    end.
Proof.
  induction ps as [|p rest IH]; intros s es Hf He.
  - cbn. split; [exact Hf|]. exists []. rewrite app_nil_r. split; [exact He | reflexivity].
  - cbn [embedEach]. unfold bindM at 1. unfold callEmbedder, bindM, get. rewrite Hf.
    destruct (f p) as [v|]; cbn [ret throw]; [|exact I].
    unfold pushPrototypeEmbedding, bindM, get. rewrite He.
    unfold setPrototypeEmbeddings, modify.
    specialize (IH (mkState (embedder s) (currentLabels s) (prototypes s)
                      (Some (es ++ [v])) (posted s) (warned s))
                   (es ++ [v]) Hf eq_refl).
    destruct (embedEach rest _) as [s1 [u|e]]; [|exact I].
    destruct IH as (Hf1 & es' & He1 & Hlen). split; [exact Hf1|].
    exists (v :: es'). rewrite He1, <- app_assoc. cbn [app List.length].
    rewrite Hlen. split; reflexivity.
Qed.

Lemma updatePrototypeEmbeddings_spec (f : Embedder) (s : @state num) :
  embedder s = Some f ->
  match updatePrototypeEmbeddings s with
  | (s1, Ok _) =>
      embedder s1 = Some f /\
      exists es, prototypeEmbeddings s1 = Some es /\
                 List.length es = List.length (tl (prototypes s))
  | (_, Throw _) => True
  end.
Proof.
  intros Hf. unfold updatePrototypeEmbeddings.
  unfold bindM at 1. unfold postMessage at 1, modify.
  unfold bindM at 1. unfold setPrototypeEmbeddings at 1, modify.
  unfold bindM at 1. unfold get at 1. cbn [prototypes].
  unfold bindM at 1.
  pose proof (embedEach_spec f (tl (prototypes s))
                (mkState (embedder s) (currentLabels s) (prototypes s) (Some [])
                   (posted s ++ [Status "Computing prototype embeddings..."]) (warned s))
                [] Hf eq_refl) as H.
  cbn [embedder currentLabels prototypes prototypeEmbeddings posted warned] in *.
  destruct (embedEach (tl (prototypes s)) _) as [s1 [u|e]]; [|exact I].
  destruct H as (Hf1 & es & He & Hlen). cbn [app] in He.
  unfold postMessage, modify. cbn [embedder prototypeEmbeddings].
  split; [exact Hf1|]. exists es. split; [exact He | exact Hlen].
Qed.

(** When nothing is cached, [classifyText] embeds the prototypes and goes on
    as it does from the state that results. *)
Lemma classifyText_lazy (s s1 : @state num) (f : Embedder)
    (text : string) (opts : options) :
  embedder s = Some f ->
  prototypeEmbeddings s = None ->
  updatePrototypeEmbeddings s = (s1, Ok tt) ->
  classifyText text opts s = classifyText text opts s1.
Proof.
  intros Hf Hc Hu.
  pose proof (updatePrototypeEmbeddings_spec f s Hf) as H. rewrite Hu in H.
  destruct H as [Hf1 (es & He & _)].
  unfold classifyText. unfold bindM at 1. unfold get at 1. rewrite Hf, Hc.
  unfold bindM at 1. rewrite Hu.
  unfold bindM at 3. unfold get at 2. rewrite Hf1, He.
  unfold bindM at 3. unfold ret at 2. reflexivity.
Qed.

Lemma classifyText_update_fails (s s1 : @state num) (f : Embedder) (e : error)
    (text : string) (opts : options) :
  embedder s = Some f ->
  prototypeEmbeddings s = None ->
  updatePrototypeEmbeddings s = (s1, Throw e) ->
  classifyText text opts s = (s1, Throw e).
Proof.
  intros Hf Hc Hu.
  unfold classifyText. unfold bindM at 1. unfold get at 1. rewrite Hf, Hc.
  unfold bindM at 1. rewrite Hu. reflexivity.
Qed.

(** C5: on an initialised worker, [classifyText] throws the
    no-valid-chunks error, and returns no vector, exactly when no chunk of
    trimmed length at least 10 yields an embedding; otherwise it returns a
    result that counts the chunks that embedded, and each chunk the
    embedder rejected is logged as a warning and skipped. *)
Theorem classifyText_fails_iff_no_chunk_embeds (s : @state num) (f : Embedder)
    (protos : list embedding) (text : string) (opts : options) :
  embedder s = Some f ->
  prototypeEmbeddings s = Some protos ->
  (snd (classifyText text opts s) = Throw NoValidChunks <->
   filter (embeds f) (chunksOf text opts) = [])
  /\ ((exists e, snd (classifyText text opts s) = Throw e) <->
      filter (embeds f) (chunksOf text opts) = [])
  /\ (filter (embeds f) (chunksOf text opts) <> [] ->
      exists r, snd (classifyText text opts s) = Ok r /\
                chunksProcessed r
                  = Z.of_nat (List.length (filter (embeds f) (chunksOf text opts))))
  /\ warned (fst (classifyText text opts s))
     = (warned s ++ rejectionWarnings f (chunksOf text opts))%list.
Proof.
  intros Hf Hp.
  destruct (classifyText_outcome s f protos text opts Hf Hp) as (Hst & H0 & H1).
  unfold validChunkCount in *.
  assert (Hlen : forall l : list string, Z.of_nat (List.length l) = 0 <-> l = []).
  { intros l. destruct l; simpl; split; intros H; try reflexivity; try discriminate; lia. }
  split; [|split; [|split]].
  - split.
    + intros Ht. apply Hlen.
      destruct (Z.eq_dec (Z.of_nat (List.length (filter (embeds f) (chunksOf text opts)))) 0)
        as [E | E]; [exact E|].
      destruct (H1 E) as (r & Hr & _). congruence.
    + intros E. apply H0, Hlen, E.
  - split.
    + intros [e Ht]. apply Hlen.
      destruct (Z.eq_dec (Z.of_nat (List.length (filter (embeds f) (chunksOf text opts)))) 0)
        as [E | E]; [exact E|].
      destruct (H1 E) as (r & Hr & _). congruence.
    + intros E. exists NoValidChunks. apply H0, Hlen, E.
  - intros Hne. destruct H1 as (r & Hr & Hc & _).
    + intros E. apply Hne, Hlen, E.
    + exists r. auto.
  - rewrite Hst. reflexivity.
Qed.

(** ** The set-labels message *)

Lemma setLabels_rejects (s : @state num) (data : setLabelsData) :
  labelsOk data = false ->
  onmessage_setLabels data s = (addPosted s [ErrorMessage LabelsNotSeven], Ok tt).
Proof.
  unfold labelsOk, onmessage_setLabels, setLabels, bindM, try.
  destruct (data_labels data) as [labels|]; [intros ->|intros _]; reflexivity.
Qed.

Lemma setLabels_keeps_prototypes (s : @state num) (data : setLabelsData)
    (labels : list string) :
  data_labels data = Some labels ->
  labelsOk data = true -> prototypesOk data = false ->
  onmessage_setLabels data s =
    (mkState (embedder s) labels (prototypes s) (prototypeEmbeddings s)
       (posted s ++ [LabelsUpdated labels (tl (prototypes s))]) (warned s),
     Ok tt).
Proof.
  unfold labelsOk, prototypesOk, onmessage_setLabels, setLabels.
  intros -> Hl Hps. rewrite Hl.
  destruct (data_prototypes data) as [ps|]; [rewrite Hps|]; reflexivity.
Qed.

(** C6, as the code has it: a set-labels request whose label list is
    missing or not of length 7 is answered with the error message and
    leaves the labels, the prototype descriptions and the cached prototype
    embeddings as they were.  A request with 7 labels whose prototype list
    is missing or not of length 8 is not rejected: the labels are
    replaced, a labels-updated message is posted, and the prototype
    descriptions and the cached embeddings stay as they were. *)
Theorem setLabels_wrong_length (s : @state num) (data : setLabelsData) :
  (labelsOk data = false ->
   onmessage_setLabels data s = (addPosted s [ErrorMessage LabelsNotSeven], Ok tt)
   /\ currentLabels (fst (onmessage_setLabels data s)) = currentLabels s
   /\ prototypes (fst (onmessage_setLabels data s)) = prototypes s
   /\ prototypeEmbeddings (fst (onmessage_setLabels data s)) = prototypeEmbeddings s)
  /\ (labelsOk data = true -> prototypesOk data = false ->
      data_labels data = Some (currentLabels (fst (onmessage_setLabels data s)))
      /\ posted (fst (onmessage_setLabels data s))
         = (posted s ++ [LabelsUpdated (currentLabels (fst (onmessage_setLabels data s)))
                           (tl (prototypes s))])%list
      /\ prototypes (fst (onmessage_setLabels data s)) = prototypes s
      /\ prototypeEmbeddings (fst (onmessage_setLabels data s)) = prototypeEmbeddings s).
Proof.
  split.
  - intros H. rewrite (setLabels_rejects s data H). repeat split.
  - intros Hl Hp. destruct (data_labels data) as [labels|] eqn:E.
    + rewrite (setLabels_keeps_prototypes s data labels E Hl Hp). repeat split.
    + unfold labelsOk in Hl. rewrite E in Hl. discriminate.
Qed.

End WorkerProperties.

(** ** Concrete runs *)

Lemma classifyText_fails_iff_no_chunk_embeds_witness :
  exists r,
    snd (classifyText (N := FloatNumber (fun x => x))
           "First sentence is here. Second sentence right here."%string
           (mkOptions (Some 30) (Some 10)) readyWorker) = Ok r
    /\ chunksProcessed r = 1.
Proof.
  exact (proj1 (proj2 (proj2
    (classifyText_fails_iff_no_chunk_embeds (N := FloatNumber (fun x => x))
       readyWorker pickyEmbedder (repeat [PrimFloat.one; PrimFloat.zero] 7)
       "First sentence is here. Second sentence right here."%string
       (mkOptions (Some 30) (Some 10)) eq_refl eq_refl)))
    ltac:(vm_compute; discriminate)).
Defined.

Example classifyText_warns_on_rejected_chunk :
  warned (fst (classifyText (N := FloatNumber (fun x => x))
                 "First sentence is here. Second sentence right here."%string
                 (mkOptions (Some 30) (Some 10)) readyWorker))
  = [EmbedderFailure].
Proof.
  rewrite (proj1
    (classifyText_outcome (N := FloatNumber (fun x => x))
       readyWorker pickyEmbedder (repeat [PrimFloat.one; PrimFloat.zero] 7)
       "First sentence is here. Second sentence right here."%string
       (mkOptions (Some 30) (Some 10)) eq_refl eq_refl)).
  reflexivity.
Qed.

(** The empty text has no chunk: the request fails and returns no vector. *)
Example classifyText_empty_text :
  snd (classifyText (N := FloatNumber (fun x => x)) ""%string (mkOptions None None)
         readyWorker) = Throw NoValidChunks.
Proof.
  apply (proj1 (proj2
    (classifyText_outcome (N := FloatNumber (fun x => x))
       readyWorker pickyEmbedder (repeat [PrimFloat.one; PrimFloat.zero] 7)
       ""%string (mkOptions None None) eq_refl eq_refl))).
  reflexivity.
Qed.

Lemma setLabels_wrong_length_witness :
  onmessage_setLabels
    (mkSetLabelsData (Some ["only"; "six"; "labels"; "in"; "this"; "list"]%string) None)
    readyWorker
  = (addPosted readyWorker [ErrorMessage LabelsNotSeven], Ok tt)
  /\ currentLabels (fst (onmessage_setLabels
        (mkSetLabelsData (Some ["only"; "six"; "labels"; "in"; "this"; "list"]%string) None)
        readyWorker)) = defaultLabels.
Proof.
  destruct (proj1 (setLabels_wrong_length readyWorker
    (mkSetLabelsData (Some ["only"; "six"; "labels"; "in"; "this"; "list"]%string) None))
    eq_refl) as (H1 & H2 & _).
  exact (conj H1 H2).
Defined.

(** C6 as stated fails: a request with 7 labels and a prototype list of 5
    entries is not rejected; no error is posted, the labels are replaced and
    the prototype list is ignored. *)
Lemma setLabels_wrong_prototype_count_applied :
  List.length sevenLabels = 7%nat
  /\ onmessage_setLabels
       (mkSetLabelsData (Some sevenLabels) (Some [""; "a"; "b"; "c"; "d"]%string))
       readyWorker
     = (mkState (Some pickyEmbedder) sevenLabels defaultPrototypes
          (Some (repeat [PrimFloat.one; PrimFloat.zero] 7))
          [LabelsUpdated sevenLabels (tl defaultPrototypes)] [],
        Ok tt).
Proof. split; reflexivity. Qed.

(** ** Diagnostics on the uniform vector *)

(** C3, as the code has it: on the uniform vector of binary64 numbers [1/7]
    the coherence flag is 0 and there are 8 coverings: the seven subsets of
    six indices, of mass 6/7 >= 0.8, and the full set. *)
Theorem uniform_vector_diagnostics (mathExp : float -> float) (labels : list string) :
  computeCohomologyClass (N := FloatNumber mathExp)
    (uniformVector (N := FloatNumber mathExp)) = 0
  /\ map cover_mask (zariskiCoverings (N := FloatNumber mathExp) labels
          (uniformVector (N := FloatNumber mathExp)))
     = [63; 95; 111; 119; 123; 125; 126; 127]
  /\ List.length (zariskiCoverings (N := FloatNumber mathExp) labels
          (uniformVector (N := FloatNumber mathExp))) = 8%nat.
Proof. repeat split; vm_compute; reflexivity. Qed.

(** C3 as stated fails: the covering count of the uniform vector is not 0. *)
Lemma uniform_vector_covering_count_nonzero :
  (Z.of_nat (List.length (zariskiCoverings (N := FloatNumber (fun x => x))
                            defaultLabels
                            (uniformVector (N := FloatNumber (fun x => x))))) =? 0)
  = false.
Proof. vm_compute. reflexivity. Qed.

(** ** The probability vector *)

Local Open Scope R_scope.

Section SoftmaxBound.

Variables (rnd mathExp : R -> R) (u : R).
Hypothesis u_small : 0 <= u <= / 100000000.
Hypothesis rnd_error : forall x, Rabs (rnd x - x) <= u * Rabs x.
Hypothesis exp_positive : forall x, 0 <= x -> 0 < mathExp x.

Lemma rnd_bounds (x : R) : 0 <= x -> (1 - u) * x <= rnd x <= (1 + u) * x.
Proof.
  intros Hx. pose proof (rnd_error x) as H.
  rewrite (Rabs_pos_eq x Hx) in H.
  unfold Rabs in H. destruct (Rcase_abs (rnd x - x)); lra.
Qed.

Lemma rnd_nonneg (x : R) : 0 <= x -> 0 <= rnd x.
Proof.
  intros Hx. destruct (rnd_bounds x Hx) as [H _].
  assert (0 <= (1 - u) * x) by (apply Rmult_le_pos; lra). lra.
Qed.

(** The rounded left fold of a sum of positive numbers. *)
Lemma rounded_sum_bounds (es : list R) :
  Forall (fun e => 0 < e) es ->
  forall acc A lo hi,
    0 <= A -> 0 < lo <= 1 -> 1 <= hi ->
    lo * A <= acc <= hi * A ->
    lo * (1 - u) ^ List.length es * (A + Rsum es)
      <= fold_left (fun a b => rnd (a + b)) es acc
      <= hi * (1 + u) ^ List.length es * (A + Rsum es).
Proof.
  induction 1 as [|e es He Hes IH]; intros acc A lo hi HA Hlo Hhi Hacc.
  - simpl. lra.
  - cbn [fold_left List.length Rsum fold_right pow].
    assert (Hae : 0 <= acc + e) by (assert (0 <= lo * A) by (apply Rmult_le_pos; lra); lra).
    destruct (rnd_bounds (acc + e) Hae) as [Hl Hh].
    assert (H1 : lo * (A + e) <= acc + e) by nra.
    assert (H2 : acc + e <= hi * (A + e)) by nra.
    specialize (IH (rnd (acc + e)) (A + e) (lo * (1 - u)) (hi * (1 + u))
                   ltac:(lra) ltac:(nra) ltac:(nra) ltac:(nra)).
    fold (Rsum es) in *.
    replace (lo * ((1 - u) * (1 - u) ^ List.length es) * (A + (e + Rsum es)))
      with (lo * (1 - u) * (1 - u) ^ List.length es * (A + e + Rsum es)) by ring.
    replace (hi * ((1 + u) * (1 + u) ^ List.length es) * (A + (e + Rsum es)))
      with (hi * (1 + u) * (1 + u) ^ List.length es * (A + e + Rsum es)) by ring.
    exact IH.
Qed.

Lemma pow7_upper : (1 + u) ^ 7 <= 1 + 8 * u.
Proof.
  destruct u_small as [H0 H1].
  assert (E : / 100000000 = 1 / 100000000) by lra. rewrite E in H1.
  assert (H2 : (1 + u) ^ 2 <= 1 + 3 * u) by nra.
  assert (H3 : (1 + u) ^ 3 <= 1 + 4 * u).
  { replace ((1 + u) ^ 3) with ((1 + u) ^ 2 * (1 + u)) by ring. nra. }
  assert (H4 : (1 + u) ^ 4 <= 1 + 5 * u).
  { replace ((1 + u) ^ 4) with ((1 + u) ^ 3 * (1 + u)) by ring. nra. }
  assert (H5 : (1 + u) ^ 5 <= 1 + 6 * u).
  { replace ((1 + u) ^ 5) with ((1 + u) ^ 4 * (1 + u)) by ring. nra. }
  assert (H6 : (1 + u) ^ 6 <= 1 + 7 * u).
  { replace ((1 + u) ^ 6) with ((1 + u) ^ 5 * (1 + u)) by ring. nra. }
  replace ((1 + u) ^ 7) with ((1 + u) ^ 6 * (1 + u)) by ring. nra.
Qed.

Lemma pow7_lower : 1 - 7 * u <= (1 - u) ^ 7.
Proof.
  destruct u_small as [H0 H1].
  assert (E : / 100000000 = 1 / 100000000) by lra. rewrite E in H1.
  assert (H2 : 1 - 2 * u <= (1 - u) ^ 2) by nra.
  assert (H3 : 1 - 3 * u <= (1 - u) ^ 3).
  { replace ((1 - u) ^ 3) with ((1 - u) ^ 2 * (1 - u)) by ring. nra. }
  assert (H4 : 1 - 4 * u <= (1 - u) ^ 4).
  { replace ((1 - u) ^ 4) with ((1 - u) ^ 3 * (1 - u)) by ring. nra. }
  assert (H5 : 1 - 5 * u <= (1 - u) ^ 5).
  { replace ((1 - u) ^ 5) with ((1 - u) ^ 4 * (1 - u)) by ring. nra. }
  assert (H6 : 1 - 6 * u <= (1 - u) ^ 6).
  { replace ((1 - u) ^ 6) with ((1 - u) ^ 5 * (1 - u)) by ring. nra. }
  replace ((1 - u) ^ 7) with ((1 - u) ^ 6 * (1 - u)) by ring. nra.
Qed.


Lemma rnd_pos (x : R) : 0 < x -> 0 < rnd x.
Proof.
  intros Hx. destruct (rnd_bounds x (Rlt_le _ _ Hx)) as [H _].
  destruct u_small as [Hu0 Hu1].
  assert (E : / 100000000 = 1 / 100000000) by lra. rewrite E in Hu1.
  assert (0 < (1 - u) * x) by (apply Rmult_lt_0_compat; lra). lra.
Qed.

(** The rounded quotients add up to the quotient of the sums, up to one
    rounding each. *)
Lemma rounded_quotients_sum (S : R) (es : list R) :
  0 < S -> Forall (fun e => 0 < e) es ->
  Forall (fun v => 0 < v) (map (fun e => rnd (e / S)) es)
  /\ (1 - u) * (Rsum es / S) <= Rsum (map (fun e => rnd (e / S)) es)
      <= (1 + u) * (Rsum es / S).
Proof.
  intros HS. induction 1 as [|e es He Hes [IH1 IH2]].
  - simpl. split; [constructor|]. unfold Rdiv. rewrite Rmult_0_l. lra.
  - assert (Ht : 0 < e / S) by (apply Rdiv_lt_0_compat; assumption).
    destruct (rnd_bounds (e / S) (Rlt_le _ _ Ht)) as [Hl Hh].
    cbn [map Rsum fold_right]. fold (Rsum es).
    fold (Rsum (map (fun e0 => rnd (e0 / S)) es)).
    split; [constructor; [apply rnd_pos, Ht | exact IH1]|].
    replace ((e + Rsum es) / S) with (e / S + Rsum es / S) by (field; lra).
    lra.
Qed.

Lemma Rsum_positive (es : list R) :
  Forall (fun e => 0 < e) es -> es <> [] -> 0 < Rsum es.
Proof.
  induction 1 as [|e es He Hes IH]; intros Hne; [contradiction|].
  cbn [Rsum fold_right]. fold (Rsum es).
  destruct es as [|e' es']; [simpl; lra|].
  assert (0 < Rsum (e' :: es')) by (apply IH; discriminate). lra.
Qed.

Lemma expScores_positive (xs : list R) :
  Forall (fun e => 0 < e) (map (fun x => mathExp (rnd (Rmax 0 x * 5))) xs).
Proof.
  apply Forall_forall. intros e He. apply in_map_iff in He as (x & <- & _).
  apply exp_positive, rnd_nonneg.
  pose proof (Rmax_l 0 x). lra.
Qed.

(** The rounded softmax of seven scores: the sum of the exponentials is not
    zero, the entries are non-negative and add up to 1 within 1e-6, whether
    they are added exactly or with a rounding after each addition. *)
Lemma softmaxR_distribution (xs : list R) :
  List.length xs = 7%nat ->
  roundedSum rnd (map (fun x => mathExp (rnd (Rmax 0 x * 5))) xs) <> 0
  /\ List.length (softmaxR rnd mathExp xs) = 7%nat
  /\ Forall (fun v => 0 <= v) (softmaxR rnd mathExp xs)
  /\ Rabs (Rsum (softmaxR rnd mathExp xs) - 1) <= / 1000000
  /\ Rabs (roundedSum rnd (softmaxR rnd mathExp xs) - 1) <= / 1000000.
Proof.
  intros Hlen. unfold softmaxR.
  set (es := map (fun x => mathExp (rnd (Rmax 0 x * 5))) xs).
  set (S := roundedSum rnd es).
  assert (Hes : Forall (fun e => 0 < e) es) by apply expScores_positive.
  assert (Hn : List.length es = 7%nat) by (unfold es; rewrite length_map; exact Hlen).
  assert (Hsum : 0 < Rsum es).
  { apply Rsum_positive; [exact Hes|]. intros E. rewrite E in Hn. discriminate. }
  pose proof (rounded_sum_bounds es Hes 0 0 1 1 ltac:(lra) ltac:(lra) ltac:(lra)
                ltac:(lra)) as HS.
  fold (roundedSum rnd es) in HS. fold S in HS.
  rewrite Hn, !Rmult_1_l, !Rplus_0_l in HS.
  pose proof pow7_upper as Hup. pose proof pow7_lower as Hlo.
  destruct u_small as [Hu0 Hu1].
  assert (E : / 100000000 = 1 / 100000000) by lra. rewrite E in Hu1.
  assert (HSlo : (1 - 7 * u) * Rsum es <= S) by nra.
  assert (HSup : S <= (1 + 8 * u) * Rsum es) by nra.
  assert (HSpos : 0 < S) by nra.
  destruct (rounded_quotients_sum S es HSpos Hes) as [Hvs [Hql Hqu]].
  set (vs := map (fun e => rnd (e / S)) es) in *.
  assert (Hnv : List.length vs = 7%nat) by (unfold vs; rewrite length_map; exact Hn).
  set (T := Rsum es / S) in *.
  assert (HTS : T * S = Rsum es) by (unfold T; field; lra).
  assert (HTpos : 0 < T) by (unfold T; apply Rdiv_lt_0_compat; assumption).
  assert (HT1 : (1 - 7 * u) * T <= 1) by nra.
  assert (HT2 : 1 <= (1 + 8 * u) * T) by nra.
  assert (Hvlo : 1 - 9 * u <= Rsum vs) by nra.
  assert (Hvhi : Rsum vs <= 1 + 9 * u) by nra.
  pose proof (rounded_sum_bounds vs Hvs 0 0 1 1 ltac:(lra) ltac:(lra) ltac:(lra)
                ltac:(lra)) as HV.
  fold (roundedSum rnd vs) in HV.
  rewrite Hnv, !Rmult_1_l, !Rplus_0_l in HV.
  split; [lra|]. split; [exact Hnv|]. split.
  - eapply Forall_impl; [|exact Hvs]. intros v Hv. lra.
  - split; apply Rabs_le; split; nra.
Qed.

(** *** From the worker's numbers to reals *)

Lemma cosineSimilarity_finite (a b : list xreal) :
  exists x, cosineSimilarity (N := RoundedNumber rnd mathExp) a b = Fin x.
Proof.
  unfold cosineSimilarity.
  destruct (fold_left _ _ _) as [[dot magA] magB].
  match goal with |- context [truthy ?q] => destruct q as [r|] end; cbn.
  - destruct (Req_dec_T r 0); eauto.
  - eauto.
Qed.

Lemma rawVector_finite (avg : list xreal) (protos : list (list xreal)) :
  exists xs,
    map (cosineSimilarity (N := RoundedNumber rnd mathExp) avg) protos = map Fin xs
    /\ List.length xs = List.length protos.
Proof.
  induction protos as [|p ps (xs & Hxs & Hlen)].
  - exists []. split; reflexivity.
  - destruct (cosineSimilarity_finite avg p) as [x Hx].
    exists (x :: xs). cbn [map List.length]. rewrite Hx, Hxs, Hlen. split; reflexivity.
Qed.

Lemma sumExp_finite (es : list R) (acc : R) :
  fold_left (nadd (Number := RoundedNumber rnd mathExp)) (map Fin es) (Fin acc)
  = Fin (fold_left (fun a b => rnd (a + b)) es acc).
Proof.
  revert acc. induction es as [|e es IH]; intros acc; [reflexivity|].
  cbn [map fold_left]. cbn [nadd RoundedNumber lift2]. apply IH.
Qed.

Lemma expScores_finite (xs : list R) :
  map (fun x => nexp (Number := RoundedNumber rnd mathExp)
                  (nmul (Number := RoundedNumber rnd mathExp)
                     (nmax (Number := RoundedNumber rnd mathExp)
                        (ofZ (Number := RoundedNumber rnd mathExp) 0%Z) x)
                     (ofZ (Number := RoundedNumber rnd mathExp) 5%Z)))
      (map Fin xs)
  = map Fin (map (fun x => mathExp (rnd (Rmax 0 x * 5))) xs).
Proof. rewrite !map_map. reflexivity. Qed.

Lemma softmax_finite (xs : list R) :
  roundedSum rnd (map (fun x => mathExp (rnd (Rmax 0 x * 5))) xs) <> 0 ->
  softmax (N := RoundedNumber rnd mathExp) (map Fin xs)
  = map Fin (softmaxR rnd mathExp xs).
Proof.
  intros HS. unfold softmax, softmaxR, roundedSum in *. cbv zeta.
  rewrite expScores_finite.
  change (ofZ (Number := RoundedNumber rnd mathExp) 0%Z) with (Fin 0).
  rewrite sumExp_finite, !map_map. apply map_ext. intros x.
  cbn [ndiv RoundedNumber xdiv].
  destruct (Req_dec_T _ 0) as [E | _]; [contradiction | reflexivity].
Qed.

Lemma classifyText_vector_cached (s : @state xreal)
    (protos : list (list xreal)) (text : string) (opts : options)
    (r : @classification xreal) :
  prototypeEmbeddings s = Some protos ->
  List.length protos = 7%nat ->
  snd (classifyText (N := RoundedNumber rnd mathExp) text opts s) = Ok r ->
  prototypeEmbeddings (fst (classifyText (N := RoundedNumber rnd mathExp) text opts s))
    = Some protos
  /\ exists xs,
      rawVector r
        = map (cosineSimilarity (N := RoundedNumber rnd mathExp) (avgEmbedding r)) protos
      /\ rawVector r = map Fin xs
      /\ List.length xs = 7%nat
      /\ vector r = map Fin (softmaxR rnd mathExp xs)
      /\ List.length (softmaxR rnd mathExp xs) = 7%nat
      /\ Forall (fun v => 0 <= v) (softmaxR rnd mathExp xs)
      /\ Rabs (Rsum (softmaxR rnd mathExp xs) - 1) <= / 1000000
      /\ Rabs (roundedSum rnd (softmaxR rnd mathExp xs) - 1) <= / 1000000.
Proof.
  intros Hp Hlen Hr.
  destruct (embedder s) as [f|] eqn:Hf.
  - destruct (classifyText_outcome (N := RoundedNumber rnd mathExp)
                s f protos text opts Hf Hp) as (Hst & H0 & H1).
    split; [rewrite Hst; exact Hp|].
    destruct (Z.eq_dec (validChunkCount f (chunksOf text opts)) 0) as [E | E].
    + rewrite (H0 E) in Hr. discriminate.
    + destruct (H1 E) as (r' & Hr' & _ & Hraw & Hvec).
      rewrite Hr' in Hr. injection Hr as <-.
      destruct (rawVector_finite (avgEmbedding r') protos) as (xs & Hxs & Hn).
      rewrite Hlen in Hn.
      destruct (softmaxR_distribution xs Hn) as (HS & Hl & Hnn & Hsum & Hrsum).
      exists xs. split; [exact Hraw|]. rewrite Hvec, Hraw, Hxs.
      repeat split; try assumption. apply softmax_finite, HS.
  - unfold classifyText, bindM, get in Hr. rewrite Hf in Hr. discriminate.
Qed.

(** In arithmetic that rounds every operation with a relative error of at
    most [u] and knows no overflow and no underflow: when [classifyText]
    returns, on a worker with seven prototype embeddings (cached, or
    embedded on demand from eight descriptions), the raw scores are the
    cosine similarities of the averaged embedding with the seven
    prototypes, seven finite numbers [xs], and the vector is their
    rectified softmax with scale 5: entry [i] is the rounded quotient of
    [exp(max(0, xs_i) * 5)] by the rounded sum of these exponentials; its
    seven entries are non-negative and add up to 1 within 1e-6, added
    exactly or with rounding.  Binary64 overflows and underflows, and there
    the conclusion can fail: [classifyText_vector_not_a_number]. *)
Theorem classifyText_vector_is_softmax (s : @state xreal)
    (text : string) (opts : options) (r : @classification xreal) :
  sevenPrototypes s ->
  snd (classifyText (N := RoundedNumber rnd mathExp) text opts s) = Ok r ->
  exists protos xs,
    prototypeEmbeddings (fst (classifyText (N := RoundedNumber rnd mathExp) text opts s))
      = Some protos
    /\ List.length protos = 7%nat
    /\ rawVector r
       = map (cosineSimilarity (N := RoundedNumber rnd mathExp) (avgEmbedding r)) protos
    /\ rawVector r = map Fin xs
    /\ List.length xs = 7%nat
    /\ vector r = map Fin (softmaxR rnd mathExp xs)
    /\ List.length (softmaxR rnd mathExp xs) = 7%nat
    /\ Forall (fun v => 0 <= v) (softmaxR rnd mathExp xs)
    /\ Rabs (Rsum (softmaxR rnd mathExp xs) - 1) <= / 1000000
    /\ Rabs (roundedSum rnd (softmaxR rnd mathExp xs) - 1) <= / 1000000.
Proof.
  unfold sevenPrototypes. intros Hseven Hr.
  destruct (prototypeEmbeddings s) as [protos|] eqn:Hp.
  - destruct (classifyText_vector_cached s protos text opts r Hp Hseven Hr)
      as (Hc & xs & H).
    exists protos, xs. split; [exact Hc|]. split; [exact Hseven | exact H].
  - destruct (embedder s) as [f|] eqn:Hf.
    + destruct (updatePrototypeEmbeddings s)
        as [s1 [[]|e]] eqn:Hu.
      * pose proof (updatePrototypeEmbeddings_spec f s Hf) as Hs1.
        rewrite Hu in Hs1. destruct Hs1 as (_ & es & He & Hlen).
        assert (Hes : List.length es = 7%nat).
        { rewrite Hlen. destruct (prototypes s) as [|p0 ps]; [discriminate|].
          cbn [tl]. cbn [List.length] in Hseven. lia. }
        rewrite (classifyText_lazy (N := RoundedNumber rnd mathExp)
                   s s1 f text opts Hf Hp Hu) in Hr |- *.
        destruct (classifyText_vector_cached s1 es text opts r He Hes Hr)
          as (Hc & xs & H).
        exists es, xs. split; [exact Hc|]. split; [exact Hes | exact H].
      * rewrite (classifyText_update_fails (N := RoundedNumber rnd mathExp)
                   s s1 f e text opts Hf Hp Hu) in Hr. discriminate.
    + unfold classifyText, bindM, get in Hr. rewrite Hf in Hr. discriminate.
Qed.

End SoftmaxBound.

(** In exact arithmetic the entries are the quotients
    [exp(max(0, x_i) * 5) / sum_j exp(max(0, x_j) * 5)]. *)
Lemma fold_left_Rplus (es : list R) (acc : R) :
  fold_left (fun a b => a + b) es acc = acc + Rsum es.
Proof.
  revert acc. induction es as [|e es IH]; intros acc; simpl.
  - lra.
  - rewrite IH. fold (Rsum es). lra.
Qed.

Lemma softmaxR_exact (xs : list R) :
  softmaxR (fun x => x) exp xs
  = map (fun x => exp (Rmax 0 x * 5) / Rsum (map (fun y => exp (Rmax 0 y * 5)) xs)) xs.
Proof.
  unfold softmaxR, roundedSum. rewrite fold_left_Rplus, Rplus_0_l, map_map.
  reflexivity.
Qed.

Lemma classifyText_vector_is_softmax_witness :
  exists r xs,
    snd (classifyText (N := RoundedNumber (fun x => x) exp)
           "A sentence long enough to embed."%string (mkOptions None None)
           idealWorker) = Ok r
    /\ vector r = map Fin (softmaxR (fun x => x) exp xs)
    /\ Forall (fun v => 0 <= v) (softmaxR (fun x => x) exp xs)
    /\ Rabs (Rsum (softmaxR (fun x => x) exp xs) - 1) <= / 1000000.
Proof.
  destruct (classifyText_outcome (N := RoundedNumber (fun x => x) exp)
              idealWorker onesEmbedder (repeat (repeat (Fin 1) 384) 7)
              "A sentence long enough to embed."%string (mkOptions None None)
              eq_refl eq_refl) as (_ & _ & H1).
  destruct (H1 ltac:(vm_compute; discriminate)) as (r & Hr & _).
  assert (Hu : 0 <= 0 <= / 100000000) by lra.
  assert (Hrnd : forall x, Rabs (x - x) <= 0 * Rabs x).
  { intros x. replace (x - x) with 0 by ring. rewrite Rabs_R0. lra. }
  destruct (classifyText_vector_is_softmax (fun x => x) exp 0 Hu Hrnd
              (fun x _ => exp_pos x) idealWorker
              "A sentence long enough to embed."%string (mkOptions None None) r
              eq_refl Hr)
    as (protos & xs & _ & _ & _ & _ & _ & Hv & _ & Hnn & Hsum & _).
  exists r, xs. repeat split; assumption.
Defined.


(** ** The probability vector on binary64 *)

Section Staged.

Context {num : Type} {N : Number num}.

#[local] Arguments accumulate : simpl never.
#[local] Arguments zrange : simpl never.
#[local] Arguments repeat : simpl never.
#[local] Arguments chunkText : simpl never.
#[local] Arguments cosineSimilarity : simpl never.
#[local] Arguments softmax : simpl never.
#[local] Arguments computeCohomologyClass : simpl never.
#[local] Arguments zariskiCoverings : simpl never.


End Staged.




(** * Part III: further properties of the worker *)

Local Close Scope R_scope.

(** ** propagateNarrative: trace, options and composition *)

Lemma propagateLoop_state (tbl : table) (verbose : bool) (chain : list Z) :
  forall (i : Z) (acc : entry) (trace : list step),
    (r <- propagateLoop tbl verbose i chain acc trace ;; Ok (fst r))
    = propagateState tbl acc chain.
Proof.
  induction chain as [|n rest IH]; intros i acc trace; [reflexivity|].
  cbn [propagateLoop propagateState].
  destruct ((n <? 1) || (n >? 7)); [reflexivity|].
  destruct acc as [sg d]. cbn [fst snd].
  destruct (lookup tbl d n) as [[[s k]|]|e]; cbn [bind]; try reflexivity.
  apply IH.
Qed.

Lemma propagateLoop_trace (tbl : table) (chain : list Z) :
  forall (i : Z) (acc acc' : entry) (trace trace' : list step) (verbose : bool),
    propagateLoop tbl verbose i chain acc trace = Ok (acc', trace') ->
    acc' = run tbl acc chain
    /\ trace' = (if verbose then trace ++ traceFrom tbl i acc chain else trace)%list.
Proof.
  induction chain as [|n rest IH]; intros i acc acc' trace trace' verbose H.
  - cbn in H. injection H as <- <-. split; [reflexivity|].
    destruct verbose; [cbn; rewrite app_nil_r|]; reflexivity.
  - cbn [propagateLoop] in H.
    destruct ((n <? 1) || (n >? 7)); [discriminate|].
    destruct acc as [sg d].
    destruct (lookup tbl d n) as [[[s k]|]|e] eqn:Hl; cbn [bind] in H; try discriminate.
    apply IH in H as [Hacc Htr].
    assert (Ht : transition tbl (sg, d) n = (sg * s, k))
      by (unfold transition; cbn [fst snd]; rewrite Hl; reflexivity).
    cbn [run fold_left traceFrom]. rewrite Ht. split; [exact Hacc|].
    rewrite Htr. destruct verbose; [|reflexivity].
    cbn [fst snd]. rewrite <- app_assoc. reflexivity.
Qed.

Lemma finalState_propagateState (tbl : table) (labels : list string) (startDim : Z)
    (chain : list Z) (verbose : bool) :
  finalState (propagateNarrative tbl labels startDim chain verbose)
  = propagateState tbl (1, startDim) chain.
Proof.
  rewrite <- (propagateLoop_state tbl verbose chain 0 (1, startDim)
                (if verbose then [mkStep 0 None 1 startDim] else [])).
  unfold finalState, propagateNarrative.
  destruct (propagateLoop tbl verbose 0 chain (1, startDim) _) as [[[sg d] tr]|e];
    reflexivity.
Qed.

Lemma traceFrom_length (tbl : table) (chain : list Z) :
  forall i st, List.length (traceFrom tbl i st chain) = List.length chain.
Proof.
  induction chain as [|n rest IH]; intros i st; [reflexivity|].
  cbn [traceFrom List.length]. rewrite IH. reflexivity.
Qed.

Lemma traceFrom_last (tbl : table) (chain : list Z) :
  forall i st d,
    (fun e => (step_sign e, step_dimension e))
      (last (traceFrom tbl i st chain) d)
    = match chain with
      | [] => (step_sign d, step_dimension d)
      | _ => run tbl st chain
      end.
Proof.
  induction chain as [|n rest IH]; intros i st d; [reflexivity|].
  cbn [traceFrom run fold_left].
  destruct rest as [|n' rest'].
  - cbn. destruct (transition tbl st n). reflexivity.
  - specialize (IH (i + 1) (transition tbl st n) d).
    cbn [traceFrom] in *. cbn [last]. exact IH.
Qed.

Lemma traceFrom_numbers (tbl : table) (chain : list Z) :
  forall i st,
    map step_no (traceFrom tbl i st chain) = zrange (i + 1) (List.length chain)
    /\ map step_input (traceFrom tbl i st chain) = map Some chain.
Proof.
  induction chain as [|n rest IH]; intros i st; [split; reflexivity|].
  cbn [traceFrom map List.length zrange step_no step_input].
  destruct (IH (i + 1) (transition tbl st n)) as [-> ->]. split; reflexivity.
Qed.

Lemma last_cons_default {A : Type} (d : A) (l : list A) : last (d :: l) d = last l d.
Proof. destruct l; reflexivity. Qed.

(** X1: a verbose propagation that returns carries a trace with one entry
    for the start and one per chain element: the entries are numbered
    0, 1, ..., each records the element consumed, the last one carries the
    final sign and dimension, and the states recorded are those of the
    transitions; without [verbose] no trace is returned. *)
Theorem propagateNarrative_trace (tbl : table) (labels : list string)
    (startDim : Z) (chain : list Z) (verbose : bool) (p : propagation) :
  propagateNarrative tbl labels startDim chain verbose = Ok p ->
  (verbose = false -> steps p = None)
  /\ (verbose = true ->
      exists trace,
        steps p = Some trace
        /\ trace = mkStep 0 None 1 startDim :: traceFrom tbl 0 (1, startDim) chain
        /\ List.length trace = S (List.length chain)
        /\ map step_no trace = zrange 0 (S (List.length chain))
        /\ map step_input trace = None :: map Some chain
        /\ (step_sign (last trace (mkStep 0 None 1 startDim)),
            step_dimension (last trace (mkStep 0 None 1 startDim)))
           = (finalSign p, finalDimension p)).
Proof.
  unfold propagateNarrative. intros H.
  destruct (propagateLoop tbl verbose 0 chain (1, startDim) _) as [[acc tr]|e] eqn:Hl;
    [|discriminate].
  cbn [bind] in H. injection H as <-. cbn [steps finalSign finalDimension].
  apply propagateLoop_trace in Hl as [Hacc Htr].
  split; intros ->; [reflexivity|].
  cbn [app] in Htr. exists tr. split; [reflexivity|]. split; [exact Htr|].
  destruct (traceFrom_numbers tbl chain 0 (1, startDim)) as [Hno Hin].
  rewrite Htr. cbn [List.length map step_no step_input zrange].
  rewrite traceFrom_length, Hno, Hin. repeat split.
  rewrite last_cons_default.
  pose proof (traceFrom_last tbl chain 0 (1, startDim) (mkStep 0 None 1 startDim)) as Hlast.
  cbn beta in Hlast. rewrite Hlast, Hacc.
  destruct chain as [|n rest]; [reflexivity|].
  destruct (run tbl (1, startDim) (n :: rest)). reflexivity.
Qed.

Lemma propagateNarrative_trace_witness :
  exists p trace,
    propagateNarrative octTable defaultLabels 1 [2; 3] true = Ok p
    /\ steps p = Some trace
    /\ List.length trace = 3%nat
    /\ map step_no trace = [0; 1; 2].
Proof.
  assert (E : exists p, propagateNarrative octTable defaultLabels 1 [2; 3] true = Ok p)
    by (eexists; reflexivity).
  destruct E as [p E].
  destruct (proj2 (propagateNarrative_trace octTable defaultLabels 1 [2; 3] true p E)
              eq_refl) as (trace & H1 & _ & H3 & H4 & _).
  exists p, trace. repeat split; assumption.
Defined.

(** X2: the [verbose] option and the labels change neither the final sign
    and dimension nor the exception of a propagation; the label returned is
    the current label of the final dimension, and ['Real'] for dimension 0. *)
Theorem propagateNarrative_outcome_independent_of_options (tbl : table)
    (labels labels' : list string) (startDim : Z) (chain : list Z)
    (verbose verbose' : bool) :
  finalState (propagateNarrative tbl labels startDim chain verbose)
    = finalState (propagateNarrative tbl labels' startDim chain verbose')
  /\ (forall e, propagateNarrative tbl labels startDim chain verbose = Throw e <->
                propagateNarrative tbl labels' startDim chain verbose' = Throw e)
  /\ (forall p, propagateNarrative tbl labels startDim chain verbose = Ok p ->
        finalLabel p = labelOf labels (finalDimension p)
        /\ (finalDimension p = 0 -> finalLabel p = "Real"%string)).
Proof.
  assert (H : finalState (propagateNarrative tbl labels startDim chain verbose)
              = finalState (propagateNarrative tbl labels' startDim chain verbose'))
    by (rewrite !finalState_propagateState; reflexivity).
  split; [exact H|]. split.
  - intros e. unfold finalState in H.
    destruct (propagateNarrative tbl labels startDim chain verbose) as [p|e1];
      destruct (propagateNarrative tbl labels' startDim chain verbose') as [q|e2];
      cbn [bind] in H; try discriminate; split; intros E; try discriminate; congruence.
  - intros p Hp. unfold propagateNarrative in Hp.
    destruct (propagateLoop tbl verbose 0 chain (1, startDim) _) as [[acc tr]|e];
      [|discriminate].
    cbn [bind] in Hp. injection Hp as <-. cbn [finalLabel finalDimension].
    split; [reflexivity|]. intros ->. reflexivity.
Qed.

Lemma propagateState_app (tbl : table) (c1 c2 : list Z) :
  forall acc,
    propagateState tbl acc (c1 ++ c2)
    = (st <- propagateState tbl acc c1 ;; propagateState tbl st c2).
Proof.
  induction c1 as [|n rest IH]; intros acc; [reflexivity|].
  cbn [app propagateState].
  destruct ((n <? 1) || (n >? 7)); [reflexivity|].
  destruct (lookup tbl (snd acc) n) as [[[s k]|]|e]; cbn [bind]; try reflexivity.
  apply IH.
Qed.

Lemma propagateState_scale (tbl : table) (sg : Z) (chain : list Z) :
  forall st,
    propagateState tbl (scaleSign sg st) chain
    = (r <- propagateState tbl st chain ;; Ok (scaleSign sg r)).
Proof.
  induction chain as [|n rest IH]; intros st; [reflexivity|].
  cbn [propagateState]. unfold scaleSign at 1 2. cbn [fst snd].
  destruct ((n <? 1) || (n >? 7)); [reflexivity|].
  destruct (lookup tbl (snd st) n) as [[[s k]|]|e]; cbn [bind]; try reflexivity.
  rewrite <- (IH (fst st * s, k)). unfold scaleSign. cbn [fst snd].
  rewrite Z.mul_assoc. reflexivity.
Qed.

(** X3: propagation composes, for every table, start and pair of chains:
    propagating [c1 ++ c2] from [s] has the outcome of propagating [c1] from
    [s] to a state [(sign1, k)] and then [c2] from [k], the final sign being
    [sign1] times the sign of the second propagation; an exception of either
    part is the exception of the whole. *)
Theorem propagateNarrative_append (tbl : table) (labels : list string)
    (s : Z) (c1 c2 : list Z) (verbose : bool) :
  finalState (propagateNarrative tbl labels s (c1 ++ c2) verbose)
  = (st1 <- finalState (propagateNarrative tbl labels s c1 verbose) ;;
     st2 <- finalState (propagateNarrative tbl labels (snd st1) c2 verbose) ;;
     Ok (fst st1 * fst st2, snd st2)).
Proof.
  rewrite !finalState_propagateState, propagateState_app.
  destruct (propagateState tbl (1, s) c1) as [[sg1 k]|e]; cbn [bind]; [|reflexivity].
  rewrite finalState_propagateState. cbn [fst snd].
  replace (sg1, k) with (scaleSign sg1 (1, k))
    by (unfold scaleSign; cbn [fst snd]; rewrite Z.mul_1_r; reflexivity).
  rewrite propagateState_scale.
  destruct (propagateState tbl (1, k) c2) as [[sg2 m]|e]; reflexivity.
Qed.

(** ** verifyFanoStructure as a decision of anti-commutativity *)

Lemma lookup_rowsPresent (tbl : table) (i j : Z) :
  rowsPresent tbl = true -> 1 <= i <= 7 ->
  exists o, lookup tbl i j = Ok o.
Proof.
  unfold rowsPresent. rewrite forallb_forall. intros H Hi.
  assert (Hin : In i (zrange 1 7)) by (cbn; lia).
  specialize (H i Hin). unfold lookup.
  destruct (js_nth tbl i) as [[r|]|]; try discriminate.
  destruct (js_nth r j) as [[e|]|]; eauto.
Qed.

Lemma upperPairs_spec (i j : Z) : In (i, j) upperPairs <-> 1 <= i /\ i < j /\ j <= 7.
Proof.
  split.
  - intros H. vm_compute in H.
    repeat (destruct H as [H | H]; [injection H as <- <-; lia|]). contradiction.
  - intros [Hi [Hij Hj]].
    assert (Hi' : 1 <= i <= 7) by lia. assert (Hj' : 1 <= j <= 7) by lia.
    each_1_7 Hi'; each_1_7 Hj'; try lia; vm_compute; tauto.
Qed.

(** The anti-commutativity loop, as a filter over the index pairs. *)
Lemma antiCommLoop_filter (tbl : table) (pairs : list (Z * Z)) :
  rowsPresent tbl = true ->
  (forall ij, In ij pairs -> 1 <= fst ij <= 7 /\ 1 <= snd ij <= 7) ->
  forall (v : verdict),
    forEach (antiCommStep tbl) v pairs
    = Ok (fst v && negb (existsb (violatesAntiCommutativity tbl) pairs),
          (snd v ++ map (fun ij => AntiCommutativityFails (fst ij) (snd ij))
                     (filter (violatesAntiCommutativity tbl) pairs))%list).
Proof.
  intros Hrows. induction pairs as [|[i j] rest IH]; intros Hin v.
  - cbn. rewrite andb_true_r, app_nil_r. destruct v; reflexivity.
  - destruct (Hin (i, j) (or_introl eq_refl)) as [Hi Hj]. cbn [fst snd] in Hi, Hj.
    destruct (lookup_rowsPresent tbl i j Hrows Hi) as [o1 H1].
    destruct (lookup_rowsPresent tbl j i Hrows Hj) as [o2 H2].
    cbn [forEach existsb filter]. unfold antiCommStep, violatesAntiCommutativity.
    cbn [fst snd]. rewrite H1, H2. cbn [bind].
    assert (IH' := fun v' => IH (fun ij H => Hin ij (or_intror H)) v').
    destruct o1 as [[s1 k1]|]; [destruct o2 as [[s2 k2]|]|];
      [destruct (negb (k1 =? k2) || negb (s1 =? - s2))|..];
      cbn [bind orb negb]; rewrite IH'; cbn [fst snd map];
      rewrite ?andb_false_r, ?andb_false_l, <- ?app_assoc; destruct v; reflexivity.
Qed.

Lemma filter_none {A : Type} (f : A -> bool) (l : list A) :
  (forall x, In x l -> f x = false) -> filter f l = [].
Proof.
  induction l as [|x l IH]; intros H; [reflexivity|].
  cbn [filter]. rewrite (H x (or_introl eq_refl)). apply IH.
  intros y Hy. apply H. right. exact Hy.
Qed.

(** X4: on a table with rows 1..7 and signs in [{-1, 1}],
    [verifyFanoStructure] returns; its warnings are the anti-commutativity
    failures of the pairs [i < j] in 1..7 whose two entries are there and
    differ in target or are not of opposite sign, in loop order; [valid] is
    true exactly when there is no warning, that is, exactly when every such
    pair has equal targets and opposite signs. *)
Theorem verifyFanoStructure_decides_antisymmetry (tbl : table) :
  rowsPresent tbl = true -> signs_unit tbl = true ->
  exists valid warnings,
    verifyFanoStructure tbl = Ok (valid, warnings)
    /\ warnings = map (fun ij => AntiCommutativityFails (fst ij) (snd ij))
                     (filter (violatesAntiCommutativity tbl) upperPairs)
    /\ (valid = true <-> warnings = [])
    /\ (valid = true <->
        forall i j s1 k1 s2 k2,
          1 <= i /\ i < j /\ j <= 7 ->
          lookup tbl i j = Ok (Some (s1, k1)) ->
          lookup tbl j i = Ok (Some (s2, k2)) ->
          k1 = k2 /\ s1 = - s2).
Proof.
  intros Hrows Hsigns.
  assert (Hrange : forall ij, In ij upperPairs -> 1 <= fst ij <= 7 /\ 1 <= snd ij <= 7).
  { intros [i j] Hin. apply upperPairs_spec in Hin. cbn [fst snd]. lia. }
  unfold verifyFanoStructure, checkAntiCommutativity.
  rewrite (antiCommLoop_filter tbl upperPairs Hrows Hrange (true, [])).
  cbn [bind fst snd app andb].
  set (valid := negb (existsb (violatesAntiCommutativity tbl) upperPairs)).
  set (warnings := map _ (filter (violatesAntiCommutativity tbl) upperPairs)).
  assert (Hcyc : checkFanoCycles tbl (valid, warnings) = Ok (valid, warnings)).
  { apply forEach_total. intros v' [[a b] c] Hin.
    destruct (fanoCycleStep_silent tbl v' (a, b, c) Hsigns) as [H | H]; [exact H|].
    exfalso. apply fanoCycles_in_range in Hin as (Ha & Hb & Hc).
    destruct (lookup_rowsPresent tbl a b Hrows Ha) as [o1 H1].
    destruct (lookup_rowsPresent tbl b c Hrows Hb) as [o2 H2].
    destruct (lookup_rowsPresent tbl c a Hrows Hc) as [o3 H3].
    unfold fanoCycleStep in H. rewrite H1 in H; cbn [bind] in H.
    rewrite H2 in H; cbn [bind] in H. rewrite H3 in H; cbn [bind] in H.
    destruct o1 as [[? ?]|]; destruct o2 as [[? ?]|]; destruct o3 as [[? ?]|];
      try discriminate.
    destruct (_ && _); discriminate. }
  exists valid, warnings. split; [exact Hcyc|]. split; [reflexivity|].
  assert (Hex : valid = true <->
                forall ij, In ij upperPairs -> violatesAntiCommutativity tbl ij = false).
  { unfold valid. rewrite negb_true_iff. split.
    - intros H ij Hin. destruct (violatesAntiCommutativity tbl ij) eqn:E; [|reflexivity].
      assert (existsb (violatesAntiCommutativity tbl) upperPairs = true)
        by (apply existsb_exists; exists ij; auto). congruence.
    - intros H. destruct (existsb _ upperPairs) eqn:E; [|reflexivity].
      apply existsb_exists in E as (ij & Hin & Hv). rewrite (H ij Hin) in Hv. discriminate. }
  split.
  - rewrite Hex. unfold warnings. split.
    + intros H. rewrite (filter_none _ _ H). reflexivity.
    + intros H ij Hin. destruct (violatesAntiCommutativity tbl ij) eqn:E; [|reflexivity].
      assert (Hf : In ij (filter (violatesAntiCommutativity tbl) upperPairs))
        by (apply filter_In; auto).
      apply (in_map (fun ij => AntiCommutativityFails (fst ij) (snd ij))) in Hf.
      rewrite H in Hf. contradiction.
  - rewrite Hex. split.
    + intros H i j s1 k1 s2 k2 Hij H1 H2.
      assert (Hin : In (i, j) upperPairs) by (apply upperPairs_spec; exact Hij).
      specialize (H (i, j) Hin). unfold violatesAntiCommutativity in H.
      cbn [fst snd] in H. rewrite H1, H2 in H.
      apply orb_false_iff in H as [Hk Hs].
      apply negb_false_iff in Hk, Hs. apply Z.eqb_eq in Hk, Hs. auto.
    + intros H [i j] Hin. apply upperPairs_spec in Hin.
      unfold violatesAntiCommutativity. cbn [fst snd].
      destruct (lookup tbl i j) as [[[s1 k1]|]|] eqn:H1; try reflexivity.
      destruct (lookup tbl j i) as [[[s2 k2]|]|] eqn:H2; try reflexivity.
      destruct (H i j s1 k1 s2 k2 Hin H1 H2) as [-> ->].
      rewrite !Z.eqb_refl. reflexivity.
Qed.

Lemma verifyFanoStructure_decides_antisymmetry_witness :
  exists valid warnings,
    verifyFanoStructure octTable = Ok (valid, warnings)
    /\ (valid = true <-> warnings = []).
Proof.
  destruct (verifyFanoStructure_decides_antisymmetry octTable eq_refl eq_refl)
    as (valid & warnings & H1 & _ & H3 & _).
  exists valid, warnings. split; assumption.
Defined.

Example verifyFanoStructure_octTable : verifyFanoStructure octTable = Ok (true, []).
Proof. reflexivity. Qed.


(** ** The chunker: what is kept and how chunks are sized *)

Lemma allChars_app (p : ascii -> bool) (a b : string) :
  allChars p (a ++ b) = allChars p a && allChars p b.
Proof.
  induction a as [|c a IH]; [reflexivity|].
  cbn [String.append allChars]. rewrite IH, andb_assoc. reflexivity.
Qed.

(** The matches of the scan, joined, are the text scanned without its
    leading terminators and without its last characters when no terminator
    follows them. *)
Lemma scan_decomposition (text : string) :
  forall st,
    scanStateOk st = true ->
    exists lead tail,
      (pendingMatch st ++ text)%string
        = (lead ++ joinChunks (scanSentences st text) ++ tail)%string
      /\ allChars isTerminator lead = true
      /\ allChars notTerminator tail = true
      /\ (st <> Between -> lead = EmptyString).
Proof.
  induction text as [|c rest IH]; intros st Hst.
  - destruct st as [|m|m]; cbn [scanSentences pendingMatch joinChunks fold_right].
    + exists EmptyString, EmptyString. repeat split.
    + exists EmptyString, m. cbn in Hst. rewrite append_empty_r. repeat split. exact Hst.
    + exists EmptyString, EmptyString. rewrite !append_empty_r. repeat split.
  - cbn [scanSentences]. destruct (isTerminator c) eqn:Hc.
    + destruct st as [|m|m]; cbn [pendingMatch].
      * destruct (IH Between eq_refl) as (lead & tail & E & Hl & Ht & _).
        cbn [pendingMatch String.append] in E.
        exists (String c lead), tail. cbn [String.append allChars].
        rewrite <- E, Hc, Hl. repeat split; [exact Ht | intros H; contradiction].
      * destruct (IH (InPunct (snoc m c)) eq_refl) as (lead & tail & E & Hl & Ht & Hn).
        rewrite (Hn ltac:(discriminate)) in E. cbn [pendingMatch] in E.
        unfold snoc in E. rewrite append_assoc in E. cbn [String.append] in E.
        exists EmptyString, tail. repeat split; assumption.
      * destruct (IH (InPunct (snoc m c)) eq_refl) as (lead & tail & E & Hl & Ht & Hn).
        rewrite (Hn ltac:(discriminate)) in E. cbn [pendingMatch] in E.
        unfold snoc in E. rewrite append_assoc in E. cbn [String.append] in E.
        exists EmptyString, tail. repeat split; assumption.
    + assert (Hnt : notTerminator c = true) by (unfold notTerminator; rewrite Hc; reflexivity).
      destruct st as [|m|m]; cbn [pendingMatch].
      * destruct (IH (InBody (String c EmptyString)))
          as (lead & tail & E & Hl & Ht & Hn).
        { cbn. rewrite Hnt. reflexivity. }
        rewrite (Hn ltac:(discriminate)) in E. cbn [pendingMatch String.append] in E.
        exists EmptyString, tail. repeat split; try assumption.
      * destruct (IH (InBody (snoc m c))) as (lead & tail & E & Hl & Ht & Hn).
        { cbn in Hst |- *. unfold snoc. rewrite allChars_app, Hst. cbn. rewrite Hnt.
          reflexivity. }
        rewrite (Hn ltac:(discriminate)) in E. cbn [pendingMatch] in E.
        unfold snoc in E. rewrite append_assoc in E. cbn [String.append] in E.
        exists EmptyString, tail. repeat split; assumption.
      * destruct (IH (InBody (String c EmptyString)))
          as (lead & tail & E & Hl & Ht & Hn).
        { cbn. rewrite Hnt. reflexivity. }
        rewrite (Hn ltac:(discriminate)) in E. cbn [pendingMatch String.append] in E.
        exists EmptyString, tail. cbn [joinChunks fold_right String.append].
        fold (joinChunks (scanSentences (InBody (String c EmptyString)) rest)).
        rewrite append_assoc, <- E. repeat split; assumption.
Qed.

(** X5: the chunks, joined in order, are the text without its leading
    terminators and without the characters after its last terminator;
    nothing else is dropped, for every text and every pair of bounds. *)
Theorem chunks_keep_all_but_lead_and_tail (maxSize minSize : Z) (text : string) :
  exists lead tail,
    text = (lead ++ joinChunks (chunkText maxSize minSize text) ++ tail)%string
    /\ allChars isTerminator lead = true
    /\ allChars notTerminator tail = true.
Proof.
  unfold chunkText. rewrite chunkSentences_join. unfold sentencesOf.
  destruct (scan_decomposition text Between eq_refl) as (lead & tail & E & Hl & Ht & _).
  cbn [pendingMatch String.append] in E.
  destruct (scanSentences Between text) as [|m ms].
  - exists EmptyString, EmptyString. cbn [joinChunks fold_right String.append].
    rewrite !append_empty_r. repeat split.
  - exists lead, tail. repeat split; assumption.
Qed.

Lemma endsWithTerminator_app (a tail : string) :
  tail <> EmptyString ->
  endsWithTerminator (a ++ tail) = endsWithTerminator tail.
Proof.
  intros Ht. induction a as [|c a IH]; [reflexivity|].
  cbn [String.append endsWithTerminator]. rewrite IH.
  destruct (a ++ tail)%string eqn:E; [|reflexivity].
  destruct a; [cbn in E; contradiction | discriminate].
Qed.

Lemma endsWithTerminator_body (tail : string) :
  allChars notTerminator tail = true -> endsWithTerminator tail = false.
Proof.
  induction tail as [|c tail IH]; [reflexivity|].
  cbn [allChars]. intros H. apply andb_true_iff in H as [Hc Ht].
  unfold notTerminator in Hc. apply negb_true_iff in Hc.
  cbn [endsWithTerminator]. destruct tail; [exact Hc | exact (IH Ht)].
Qed.

(** X6: a text that starts with a character other than a terminator and
    ends with a terminator is reconstructed exactly by joining its chunks,
    whatever the bounds. *)
Theorem chunks_reconstruct_terminated_text (maxSize minSize : Z) (text : string) :
  startsSentence text = true ->
  endsWithTerminator text = true ->
  joinChunks (chunkText maxSize minSize text) = text.
Proof.
  intros Hstart Hend.
  unfold chunkText. rewrite chunkSentences_join. unfold sentencesOf.
  destruct (scan_decomposition text Between eq_refl) as (lead & tail & E & Hl & Ht & _).
  cbn [pendingMatch String.append] in E.
  destruct (scanSentences Between text) as [|m ms];
    [cbn [joinChunks fold_right]; apply append_empty_r|].
  set (J := joinChunks (m :: ms)) in *.
  assert (Htail : tail = EmptyString).
  { destruct tail as [|c tail']; [reflexivity|]. exfalso.
    rewrite E, <- append_assoc, endsWithTerminator_app in Hend by discriminate.
    rewrite (endsWithTerminator_body _ Ht) in Hend. discriminate. }
  assert (Hlead : lead = EmptyString).
  { destruct lead as [|c lead']; [reflexivity|]. exfalso.
    rewrite E in Hstart. cbn in Hstart, Hl.
    apply andb_true_iff in Hl as [Hc _]. unfold notTerminator in Hstart.
    rewrite Hc in Hstart. discriminate. }
  rewrite Htail, Hlead, append_empty_r in E. cbn [String.append] in E.
  symmetry. exact E.
Qed.

Lemma chunks_reconstruct_terminated_text_witness :
  joinChunks (chunkText 512 100 "One. Two!"%string) = "One. Two!"%string.
Proof.
  exact (chunks_reconstruct_terminated_text 512 100 "One. Two!"%string eq_refl eq_refl).
Defined.

Lemma snoc_not_empty (m : string) (c : ascii) : snoc m c <> EmptyString.
Proof. unfold snoc. destruct m; discriminate. Qed.

Lemma scan_shapes (text : string) :
  forall st, scanStateShaped st -> Forall sentenceShaped (scanSentences st text).
Proof.
  induction text as [|c rest IH]; intros st Hst.
  - destruct st as [|m|m]; cbn [scanSentences]; constructor; [exact Hst | constructor].
  - cbn [scanSentences]. destruct (isTerminator c) eqn:Hc.
    + destruct st as [|m|m].
      * apply IH. exact I.
      * apply IH. destruct Hst as [Hm0 Hm].
        exists m, (String c EmptyString). unfold snoc. cbn [allChars]. rewrite Hc.
        repeat split; try assumption. discriminate.
      * apply IH. destruct Hst as (body & punct & -> & Hb0 & Hb & Hp0 & Hp).
        exists body, (snoc punct c). unfold snoc. rewrite append_assoc, allChars_app, Hp.
        cbn [allChars]. rewrite Hc. repeat split; try assumption.
        destruct punct; discriminate.
    + assert (Hnt : notTerminator c = true) by (unfold notTerminator; rewrite Hc; reflexivity).
      destruct st as [|m|m].
      * apply IH. cbn. rewrite Hnt. split; [discriminate | reflexivity].
      * apply IH. destruct Hst as [Hm0 Hm]. cbn. split; [apply snoc_not_empty|].
        unfold snoc. rewrite allChars_app, Hm. cbn. rewrite Hnt. reflexivity.
      * constructor; [exact Hst|]. apply IH. cbn. rewrite Hnt.
        split; [discriminate | reflexivity].
Qed.

(** X7: every sentence the pattern matches consists of characters other
    than terminators, at least one, followed by terminators, at least one:
    a match is never empty, never starts with a terminator and always ends
    with one. *)
Theorem matched_sentences_are_terminated (text s : string) :
  In s (scanSentences Between text) ->
  exists body punct,
    s = (body ++ punct)%string
    /\ body <> EmptyString /\ allChars notTerminator body = true
    /\ punct <> EmptyString /\ allChars isTerminator punct = true.
Proof.
  intros Hin. pose proof (scan_shapes text Between I) as H.
  rewrite Forall_forall in H. exact (H s Hin).
Qed.

Lemma matched_sentences_are_terminated_witness :
  exists body punct,
    " Two!?"%string = (body ++ punct)%string
    /\ body <> EmptyString /\ allChars notTerminator body = true
    /\ punct <> EmptyString /\ allChars isTerminator punct = true.
Proof.
  apply (matched_sentences_are_terminated "One. Two!? Three"%string " Two!?"%string).
  cbn. right. left. reflexivity.
Defined.

(** The loop over the sentences groups consecutive sentences, and it emits
    a chunk only when the chunk has reached [minSize]. *)
Lemma chunkStep_groups (maxSize minSize : Z) (sentences : list string) :
  forall (groups : list (list string)) (current : list string),
    Forall (fun g => minSize <= strlen (joinChunks g)) groups ->
    let '(chunks', cur') :=
      fold_left (chunkStep maxSize minSize) sentences
                (map joinChunks groups, joinChunks current) in
    exists groups' current',
      chunks' = map joinChunks groups'
      /\ cur' = joinChunks current'
      /\ Forall (fun g => minSize <= strlen (joinChunks g)) groups'
      /\ (List.concat groups' ++ current' = List.concat groups ++ current ++ sentences)%list.
Proof.
  induction sentences as [|s ss IH]; intros groups current Hmin.
  - cbn [fold_left]. exists groups, current. rewrite app_nil_r. auto.
  - cbn [fold_left chunkStep].
    destruct (strlen (joinChunks current ++ s) >? maxSize);
      [destruct (strlen (joinChunks current) >=? minSize) eqn:Hge|].
    + specialize (IH (groups ++ [current])%list [s]).
      rewrite map_app in IH. cbn [map joinChunks fold_right] in IH.
      rewrite append_empty_r in IH.
      assert (Hmin' : Forall (fun g => minSize <= strlen (joinChunks g)) (groups ++ [current])).
      { apply Forall_app. split; [exact Hmin|]. constructor; [|constructor].
        rewrite Z.geb_leb in Hge. apply Z.leb_le in Hge. exact Hge. }
      specialize (IH Hmin').
      destruct (fold_left _ ss _) as [chunks' cur'].
      destruct IH as (g' & c' & H1 & H2 & H3 & H4).
      exists g', c'. repeat split; try assumption.
      rewrite H4, concat_app. cbn [List.concat]. rewrite app_nil_r, <- !app_assoc.
      reflexivity.
    + specialize (IH groups (current ++ [s])%list).
      rewrite joinChunks_app in IH. cbn [joinChunks fold_right] in IH.
      rewrite append_empty_r in IH. specialize (IH Hmin).
      destruct (fold_left _ ss _) as [chunks' cur'].
      destruct IH as (g' & c' & H1 & H2 & H3 & H4).
      exists g', c'. repeat split; try assumption.
      rewrite H4, <- !app_assoc. reflexivity.
    + specialize (IH groups (current ++ [s])%list).
      rewrite joinChunks_app in IH. cbn [joinChunks fold_right] in IH.
      rewrite append_empty_r in IH. specialize (IH Hmin).
      destruct (fold_left _ ss _) as [chunks' cur'].
      destruct IH as (g' & c' & H1 & H2 & H3 & H4).
      exists g', c'. repeat split; try assumption.
      rewrite H4, <- !app_assoc. reflexivity.
Qed.

(** X8: the chunks respect the sentences: every chunk is the concatenation
    of a group of consecutive sentences, the groups taken in order make up
    the sentence list (all of it, unless the last group joins to the empty
    string), and every chunk but the last has at least [minChunkSize]
    characters. *)
Theorem chunks_group_sentences (maxSize minSize : Z) (text : string) :
  exists (groups : list (list string)) (rest : list string),
    chunkText maxSize minSize text = map joinChunks groups
    /\ (List.concat groups ++ rest)%list = sentencesOf text
    /\ joinChunks rest = EmptyString
    /\ Forall (fun g => minSize <= strlen (joinChunks g)) (removelast groups).
Proof.
  unfold chunkText, chunkSentences.
  pose proof (chunkStep_groups maxSize minSize (sentencesOf text) [] []
                (Forall_nil _)) as H.
  cbn [map joinChunks fold_right] in H.
  destruct (fold_left _ (sentencesOf text) _) as [chunks cur].
  destruct H as (groups & current & -> & -> & Hmin & Hcat).
  cbn [List.concat app] in Hcat.
  destruct (String.eqb_spec (joinChunks current) EmptyString) as [E | _].
  - exists groups, current. repeat split; try assumption.
    clear - Hmin. induction Hmin as [|g gs Hg Hgs IH]; [constructor|].
    destruct gs; [constructor|]. cbn [removelast]. constructor; assumption.
  - exists (groups ++ [current])%list, []. rewrite map_app, concat_app. cbn [map List.concat].
    rewrite !app_nil_r, removelast_last. repeat split; assumption.
Qed.

Lemma strlen_app (a b : string) : strlen (a ++ b) = strlen a + strlen b.
Proof.
  unfold strlen. induction a as [|c a IH]; [reflexivity|].
  cbn [String.append String.length]. lia.
Qed.

Lemma strlen_nonneg (a : string) : 0 <= strlen a.
Proof. unfold strlen. lia. Qed.

Lemma chunkStep_fits (maxSize minSize : Z) (sentences : list string) :
  forall (chunks : list string) (cur : string),
    strlen (cur ++ joinChunks sentences) <= maxSize ->
    fold_left (chunkStep maxSize minSize) sentences (chunks, cur)
    = (chunks, (cur ++ joinChunks sentences)%string).
Proof.
  induction sentences as [|s ss IH]; intros chunks cur H.
  - cbn. rewrite append_empty_r. reflexivity.
  - cbn [fold_left chunkStep joinChunks fold_right] in *.
    fold (joinChunks ss) in *.
    assert (Hs : strlen (cur ++ s) <= maxSize).
    { rewrite !strlen_app in H. rewrite strlen_app.
      pose proof (strlen_nonneg (joinChunks ss)). lia. }
    replace (strlen (cur ++ s) >? maxSize) with false
      by (symmetry; rewrite Z.gtb_ltb; apply Z.ltb_ge; exact Hs).
    rewrite IH by (rewrite append_assoc; exact H).
    rewrite append_assoc. reflexivity.
Qed.

(** X9: a text of at most [maxChunkSize] characters is never split: its
    sentences, joined, are the one chunk (and there is no chunk when that
    is the empty string). *)
Theorem short_text_is_one_chunk (maxSize minSize : Z) (text : string) :
  strlen text <= maxSize ->
  chunkText maxSize minSize text
  = if String.eqb (joinChunks (sentencesOf text)) EmptyString then []
    else [joinChunks (sentencesOf text)].
Proof.
  intros Hlen.
  assert (Hj : strlen (joinChunks (sentencesOf text)) <= strlen text).
  { unfold sentencesOf.
    destruct (scan_decomposition text Between eq_refl) as (lead & tail & E & _).
    cbn [pendingMatch String.append] in E.
    destruct (scanSentences Between text) as [|m ms].
    - cbn [joinChunks fold_right]. rewrite append_empty_r. lia.
    - rewrite E, !strlen_app.
      pose proof (strlen_nonneg lead). pose proof (strlen_nonneg tail). lia. }
  unfold chunkText, chunkSentences.
  rewrite (chunkStep_fits maxSize minSize (sentencesOf text) [] EmptyString)
    by (cbn [String.append]; lia).
  cbn [String.append app]. reflexivity.
Qed.

Lemma short_text_is_one_chunk_witness :
  chunkText 512 100 "One. Two!"%string
  = if String.eqb (joinChunks (sentencesOf "One. Two!"%string)) EmptyString then []
    else [joinChunks (sentencesOf "One. Two!"%string)].
Proof.
  apply (short_text_is_one_chunk 512 100 "One. Two!"%string). cbn. lia.
Defined.


(** ** The worker's state: prototypes, labels and readiness *)

Lemma zrange_In (n : nat) :
  forall lo x, In x (zrange lo n) -> lo <= x < lo + Z.of_nat n.
Proof.
  induction n as [|n IH]; intros lo x Hin; [destruct Hin|].
  cbn [zrange] in Hin. destruct Hin as [<- | Hin]; [lia|].
  apply IH in Hin. lia.
Qed.

Lemma zrange_length (n : nat) : forall lo, List.length (zrange lo n) = n.
Proof.
  induction n as [|n IH]; intros lo; cbn [zrange List.length]; [|rewrite IH];
    reflexivity.
Qed.

Section StateProperties.

Context {num : Type} {N : Number num}.

#[local] Arguments accumulate : simpl never.
#[local] Arguments zrange : simpl never.
#[local] Arguments repeat : simpl never.
#[local] Arguments chunkText : simpl never.
#[local] Arguments cosineSimilarity : simpl never.
#[local] Arguments softmax : simpl never.
#[local] Arguments computeCohomologyClass : simpl never.
#[local] Arguments zariskiCoverings : simpl never.

Lemma embedEach_outcome (f : Embedder) (ps : list string) :
  forall (s : @state num) (es0 : list embedding),
    embedder s = Some f ->
    prototypeEmbeddings s = Some es0 ->
    embedEach ps s
    = (mkState (embedder s) (currentLabels s) (prototypes s)
         (Some (es0 ++ fst (embedWhile f ps))) (posted s) (warned s),
       if snd (embedWhile f ps) then Ok tt else Throw EmbedderFailure).
Proof.
  induction ps as [|p rest IH]; intros [e l p0 c po w] es0 Hf He;
    cbn in Hf, He; subst e c;
    cbn [embedder currentLabels prototypes prototypeEmbeddings posted warned].
  - cbn. rewrite app_nil_r. reflexivity.
  - cbn [embedEach embedWhile]. unfold bindM at 1. unfold callEmbedder, bindM, get.
    cbn [embedder]. destruct (f p) as [v|]; cbn [ret throw].
    + unfold pushPrototypeEmbedding, bindM, get.
      cbn [prototypeEmbeddings]. unfold setPrototypeEmbeddings, modify.
      cbn [embedder currentLabels prototypes prototypeEmbeddings posted warned].
      rewrite (IH (mkState (Some f) l p0 (Some (es0 ++ [v])) po w) (es0 ++ [v])
                 eq_refl eq_refl).
      cbn [embedder currentLabels prototypes posted warned].
      destruct (embedWhile f rest) as [es ok]. cbn [fst snd].
      rewrite <- app_assoc. reflexivity.
    + cbn [fst snd]. rewrite app_nil_r. reflexivity.
Qed.

Lemma updatePrototypeEmbeddings_run (f : Embedder) (s : @state num) :
  embedder s = Some f ->
  updatePrototypeEmbeddings s
  = (mkState (embedder s) (currentLabels s) (prototypes s)
       (Some (fst (embedWhile f (tl (prototypes s)))))
       (posted s ++ Status "Computing prototype embeddings..."
          :: (if snd (embedWhile f (tl (prototypes s)))
              then [Status "Prototypes ready"] else []))
       (warned s),
     if snd (embedWhile f (tl (prototypes s))) then Ok tt else Throw EmbedderFailure).
Proof.
  destruct s as [e l p0 c po w]. cbn. intros ->.
  unfold updatePrototypeEmbeddings, bindM, postMessage, setPrototypeEmbeddings,
    modify, get.
  cbn [embedder currentLabels prototypes prototypeEmbeddings posted warned].
  rewrite (embedEach_outcome f (tl p0)
             (mkState (Some f) l p0 (Some [])
                (po ++ [Status "Computing prototype embeddings..."]) w)
             [] eq_refl eq_refl).
  cbn [embedder currentLabels prototypes prototypeEmbeddings posted warned app].
  destruct (embedWhile f (tl p0)) as [es ok]. cbn [fst snd].
  destruct ok; rewrite <- ?app_assoc; reflexivity.
Qed.

Lemma embedWhile_length (f : @Embedder num) (ps : list string) :
  (List.length (fst (embedWhile f ps)) <= List.length ps)%nat
  /\ (snd (embedWhile f ps) = true ->
      List.length (fst (embedWhile f ps)) = List.length ps)
  /\ (snd (embedWhile f ps) = false ->
      (List.length (fst (embedWhile f ps)) < List.length ps)%nat).
Proof.
  induction ps as [|p rest (IH1 & IH2 & IH3)]; cbn [embedWhile].
  - cbn. repeat split; [lia | discriminate].
  - destruct (f p) as [v|].
    + destruct (embedWhile f rest) as [es ok]. cbn [fst snd List.length] in *.
      repeat split; intros; [lia | rewrite IH2 by assumption; reflexivity |].
      apply IH3 in H. lia.
    + cbn. repeat split; [lia | discriminate | lia].
Qed.


(** X10: [updatePrototypeEmbeddings] with an embedder loaded replaces the
    cache by the embeddings of the descriptions from slot 1 on, in order,
    posts the two status messages and changes nothing else; when the
    embedder rejects a description it throws instead, the cache is left
    with the embeddings made before the rejection (fewer than there are
    descriptions), and the second status message is not posted. *)
Theorem updatePrototypeEmbeddings_outcome (f : Embedder) (s : @state num) :
  embedder s = Some f ->
  let es := fst (embedWhile f (tl (prototypes s))) in
  let ok := snd (embedWhile f (tl (prototypes s))) in
  updatePrototypeEmbeddings s
  = (mkState (embedder s) (currentLabels s) (prototypes s) (Some es)
       (posted s ++ Status "Computing prototype embeddings..."
          :: (if ok then [Status "Prototypes ready"] else []))
       (warned s),
     if ok then Ok tt else Throw EmbedderFailure)
  /\ (if ok
      then map Some es = map f (tl (prototypes s))
      else (List.length es < List.length (tl (prototypes s)))%nat
           /\ map Some es = map f (firstn (List.length es) (tl (prototypes s)))
           /\ (exists p, nth_error (tl (prototypes s)) (List.length es) = Some p
                         /\ f p = None)).
Proof.
  intros Hf es ok. split.
  - exact (updatePrototypeEmbeddings_run f s Hf).
  - subst es ok. induction (tl (prototypes s)) as [|p rest IH]; cbn [embedWhile].
    + reflexivity.
    + destruct (f p) as [v|] eqn:Hp.
      * destruct (embedWhile f rest) as [es ok]. cbn [fst snd] in *.
        destruct ok.
        -- cbn [map]. rewrite IH, Hp. reflexivity.
        -- destruct IH as (Hlt & Hmap & q & Hq & Hfq).
           cbn [List.length firstn map nth_error]. rewrite Hp, Hmap.
           repeat split; [lia | exists q; split; assumption].
      * cbn [fst snd List.length firstn map nth_error].
        repeat split; [lia | exists p; split; [reflexivity | assumption]].
Qed.

(** X11: a set-labels request with 7 labels and 8 prototype descriptions,
    on a worker with an embedder: the labels and descriptions are replaced
    and the descriptions from slot 1 on are embedded; when all embed, the
    cache holds their 7 embeddings and labels-updated is posted; when the
    embedder rejects one, an error is posted, yet the new labels and
    descriptions stay and the cache keeps fewer than 7 embeddings. *)
Theorem setLabels_with_prototypes (f : Embedder) (s : @state num)
    (labels ps : list string) :
  embedder s = Some f ->
  List.length labels = 7%nat ->
  List.length ps = 8%nat ->
  let es := fst (embedWhile f (tl ps)) in
  let ok := snd (embedWhile f (tl ps)) in
  onmessage_setLabels (mkSetLabelsData (Some labels) (Some ps)) s
  = (mkState (embedder s) labels ps (Some es)
       (posted s ++ Status "Computing prototype embeddings..."
          :: (if ok
              then [Status "Prototypes ready"; LabelsUpdated labels (tl ps)]
              else [ErrorMessage EmbedderFailure]))
       (warned s),
     Ok tt)
  /\ (if ok then List.length es = 7%nat else (List.length es < 7)%nat).
Proof.
  intros Hf Hl Hp es ok. split.
  - destruct s as [e l p0 c po w]. cbn in Hf. subst e.
    unfold onmessage_setLabels, setLabels. cbn [data_labels data_prototypes].
    rewrite Hl, Hp. cbn [Nat.eqb].
    unfold bindM, try, setCurrentLabels, setPrototypes, modify.
    cbn [embedder currentLabels prototypes prototypeEmbeddings posted warned].
    rewrite (updatePrototypeEmbeddings_run f (mkState (Some f) labels ps c po w)
               eq_refl).
    cbn [embedder currentLabels prototypes prototypeEmbeddings posted warned].
    fold es ok. destruct ok.
    + unfold get, postMessage, modify, ret.
      cbn [embedder currentLabels prototypes prototypeEmbeddings posted warned].
      rewrite <- app_assoc. reflexivity.
    + unfold postMessage, modify.
      cbn [embedder currentLabels prototypes prototypeEmbeddings posted warned].
      rewrite <- app_assoc. reflexivity.
  - destruct (embedWhile_length f (tl ps)) as (_ & H2 & H3).
    assert (Ht : List.length (tl ps) = 7%nat)
      by (destruct ps; [discriminate | cbn in Hp |- *; lia]).
    subst es ok. destruct (snd (embedWhile f (tl ps))).
    + rewrite H2 by reflexivity. exact Ht.
    + specialize (H3 eq_refl). lia.
Qed.

Lemma softmax_length (raw : list num) :
  List.length (softmax raw) = List.length raw.
Proof. unfold softmax. rewrite !length_map. reflexivity. Qed.

(** X12: a first [classifyText] on a worker that has cached nothing embeds
    the prototype descriptions before it looks at the text.  When they all
    embed, the request goes on as on a worker with that cache.  When the
    embedder rejects one, the request fails with the embedder's error for
    any text, and the cache keeps the embeddings made so far: it is set, so
    no later request embeds the descriptions again, and a later request
    that succeeds returns a vector with fewer entries than there are
    descriptions. *)
Theorem classifyText_cold_start (f : Embedder) (s : @state num)
    (text : string) (opts : options) :
  embedder s = Some f ->
  prototypeEmbeddings s = None ->
  let es := fst (embedWhile f (tl (prototypes s))) in
  let ok := snd (embedWhile f (tl (prototypes s))) in
  let s1 := mkState (embedder s) (currentLabels s) (prototypes s) (Some es)
              (posted s ++ Status "Computing prototype embeddings..."
                 :: (if ok then [Status "Prototypes ready"] else []))
              (warned s) in
  (if ok
   then classifyText text opts s = classifyText text opts s1
   else classifyText text opts s = (s1, Throw EmbedderFailure)
        /\ (List.length es < List.length (tl (prototypes s)))%nat)
  /\ prototypeEmbeddings (fst (classifyText text opts s)) = Some es
  /\ forall (text' : string) (opts' : options) (r : classification),
       snd (classifyText text' opts' (fst (classifyText text opts s))) = Ok r ->
       List.length (vector r) = List.length es.
Proof.
  intros Hf Hc es ok s1.
  pose proof (updatePrototypeEmbeddings_run f s Hf) as Hu.
  fold es ok in Hu. fold s1 in Hu.
  assert (Hok : snd (embedWhile f (tl (prototypes s))) = ok) by reflexivity.
  clearbody ok.
  assert (Hf1 : embedder s1 = Some f) by exact Hf.
  assert (Hc1 : prototypeEmbeddings s1 = Some es) by reflexivity.
  assert (Hfst : prototypeEmbeddings (fst (classifyText text opts s)) = Some es
                 /\ embedder (fst (classifyText text opts s)) = Some f).
  { destruct ok.
    - rewrite (classifyText_lazy s s1 f text opts Hf Hc Hu).
      destruct (classifyText_outcome s1 f es text opts Hf1 Hc1) as (-> & _).
      split; [reflexivity | exact Hf]. 
    - rewrite (classifyText_update_fails s s1 f EmbedderFailure text opts Hf Hc Hu).
      split; [reflexivity | exact Hf]. }
  split; [|split].
  - destruct ok.
    + exact (classifyText_lazy s s1 f text opts Hf Hc Hu).
    + split.
      * exact (classifyText_update_fails s s1 f EmbedderFailure text opts Hf Hc Hu).
      * destruct (embedWhile_length f (tl (prototypes s))) as (_ & _ & H3).
        apply H3. exact Hok.
  - apply Hfst.
  - intros text' opts' r Hr. destruct Hfst as [Hc2 Hf2].
    destruct (classifyText_outcome _ f es text' opts' Hf2 Hc2) as (_ & H0 & Hn).
    destruct (Z.eq_dec (validChunkCount f (chunksOf text' opts')) 0) as [Hz|Hz].
    + rewrite (H0 Hz) in Hr. discriminate.
    + destruct (Hn Hz) as (r' & Hr' & _ & Hraw & Hvec).
      rewrite Hr' in Hr. injection Hr as <-.
      rewrite Hvec, softmax_length, Hraw, length_map. reflexivity.
Qed.

Lemma computeCohomologyClass_range (v : list num) :
  computeCohomologyClass v = 0 \/ computeCohomologyClass v = 1.
Proof.
  unfold computeCohomologyClass.
  set (body := fun (signChanges : Z) (i : Z) => _).
  assert (H : forall l acc, 0 <= acc -> 0 <= fold_left body l acc).
  { induction l as [|i l IH]; intros acc Hacc; [exact Hacc|].
    cbn [fold_left]. apply IH. unfold body.
    destruct (nlt _ _); [|exact Hacc]. destruct (nlt _ _); lia. }
  specialize (H (zrange 0 7) 0 (Z.le_refl 0)).
  pose proof (Z.rem_bound_pos (fold_left body (zrange 0 7) 0) 2 H ltac:(lia)). lia.
Qed.

Lemma fold_left_pointwise {A B : Type} (f g : A -> B -> A) (l : list B) :
  (forall a x, f a x = g a x) ->
  forall a, fold_left f l a = fold_left g l a.
Proof.
  intros H. induction l as [|x l IH]; intros a; [reflexivity|].
  cbn [fold_left]. rewrite H. apply IH.
Qed.

Lemma fold_left_collect {A B : Type} (p : A -> bool) (g : A -> B) (l : list A) :
  forall acc,
    fold_left (fun acc x => if p x then acc ++ [g x] else acc) l acc
    = (acc ++ map g (filter p l))%list.
Proof.
  induction l as [|x l IH]; intros acc; cbn [fold_left filter map].
  - rewrite app_nil_r. reflexivity.
  - rewrite IH. destruct (p x); [|reflexivity].
    cbn [map]. rewrite <- app_assoc. reflexivity.
Qed.

Lemma subsetOf_spec (v : list num) (mask : Z) :
  subsetOf v mask = (subsetSum v mask, map (fun i => i + 1) (bitsOf mask)).
Proof.
  unfold subsetOf, subsetSum, bitsOf.
  assert (H : forall l sum indices,
             fold_left (fun '(sum, indices) i =>
                          if Z.land mask (Z.shiftl 1 i) =? 0 then (sum, indices)
                          else (nadd sum (at_ v i), indices ++ [i + 1])) l (sum, indices)
             = (fold_left (fun sum i => nadd sum (at_ v i))
                  (filter (fun i => negb (Z.land mask (Z.shiftl 1 i) =? 0)) l) sum,
                (indices ++ map (fun i => i + 1)
                   (filter (fun i => negb (Z.land mask (Z.shiftl 1 i) =? 0)) l))%list)).
  { induction l as [|i l IH]; intros sum indices; cbn [fold_left filter map].
    - rewrite app_nil_r. reflexivity.
    - destruct (Z.land mask (Z.shiftl 1 i) =? 0); cbn [negb]; rewrite IH.
      + reflexivity.
      + cbn [fold_left map]. rewrite <- app_assoc. reflexivity. }
  rewrite H. reflexivity.
Qed.

Lemma zariskiCoverings_eq (labels : list string) (v : list num) :
  zariskiCoverings labels v
  = map (fun mask =>
           mkCover mask (map (fun i => i + 1) (bitsOf mask)) (subsetSum v mask)
             (map (fun idx => js_nth labels (idx - 1))
                (map (fun i => i + 1) (bitsOf mask))))
        (filter (fun mask => nle (ofDec 8 10) (subsetSum v mask)) (zrange 1 127)).
Proof.
  unfold zariskiCoverings.
  rewrite <- (app_nil_l (map _ (filter _ _))), <- fold_left_collect.
  apply fold_left_pointwise. intros covers mask.
  rewrite subsetOf_spec. reflexivity.
Qed.

Lemma bitsOf_masks :
  forallb (fun mask =>
             negb (Nat.eqb (List.length (bitsOf mask)) 0)
             && forallb (fun i => (0 <=? i) && (i <=? 6)) (bitsOf mask)
             && (fold_left (fun m i => m + Z.shiftl 1 i) (bitsOf mask) 0 =? mask))
          (zrange 1 127) = true.
Proof. vm_compute. reflexivity. Qed.

Lemma zariskiCoverings_count (labels : list string) (v : list num) :
  (List.length (zariskiCoverings labels v) <= 127)%nat.
Proof.
  rewrite zariskiCoverings_eq, length_map.
  eapply Nat.le_trans; [apply filter_length_le|].
  rewrite zrange_length. apply Nat.le_refl.
Qed.

(** X14: [zariskiCoverings] lists, in ascending order of mask, exactly the
    non-empty subsets of the seven positions whose mass (the entries of the
    subset added in ascending order) is at least the threshold 0.8; a
    covering carries the 1-based positions of its subset in ascending
    order, its mass and the labels of the positions; the mask is the sum of
    the powers of two of its positions, so no subset is listed twice and at
    most 127 are listed. *)
Theorem zariskiCoverings_structure (labels : list string) (v : list num) :
  map cover_mask (zariskiCoverings labels v)
  = filter (fun mask => nle (ofDec 8 10) (subsetSum v mask)) (zrange 1 127)
  /\ (List.length (zariskiCoverings labels v) <= 127)%nat
  /\ Forall (fun c =>
               1 <= cover_mask c <= 127
               /\ cover_indices c = map (fun i => i + 1) (bitsOf (cover_mask c))
               /\ cover_indices c <> []
               /\ Forall (fun idx => 1 <= idx <= 7) (cover_indices c)
               /\ fold_left (fun m idx => m + Z.shiftl 1 (idx - 1)) (cover_indices c) 0
                  = cover_mask c
               /\ cover_sum c = subsetSum v (cover_mask c)
               /\ nle (ofDec 8 10) (cover_sum c) = true
               /\ cover_labels c
                  = map (fun idx => js_nth labels (idx - 1)) (cover_indices c))
            (zariskiCoverings labels v).
Proof.
  rewrite zariskiCoverings_eq. split; [|split].
  - rewrite map_map. cbn [cover_mask]. apply map_id.
  - rewrite <- zariskiCoverings_eq. apply zariskiCoverings_count.
  - apply Forall_forall. intros c Hc.
    apply in_map_iff in Hc as (mask & <- & Hm).
    apply filter_In in Hm as [Hin Hle].
    pose proof bitsOf_masks as Hall.
    rewrite forallb_forall in Hall. specialize (Hall mask Hin).
    apply andb_prop in Hall as [Hall Hsum]. apply andb_prop in Hall as [Hne Hrng].
    cbn [cover_mask cover_indices cover_sum cover_labels].
    apply zrange_In in Hin.
    apply negb_true_iff, Nat.eqb_neq in Hne.
    assert (Hidx : Forall (fun idx => 1 <= idx <= 7) (map (fun i => i + 1) (bitsOf mask))).
    { apply Forall_forall. intros idx Hidx. apply in_map_iff in Hidx as (i & <- & Hi).
      rewrite forallb_forall in Hrng. specialize (Hrng i Hi). lia. }
    assert (Hfold : forall l m,
               fold_left (fun m idx => m + Z.shiftl 1 (idx - 1))
                 (map (fun i => i + 1) l) m
               = fold_left (fun m i => m + Z.shiftl 1 i) l m).
    { induction l as [|i l IH]; intros m; [reflexivity|].
      cbn [map fold_left]. rewrite IH. do 3 f_equal. lia. }
    split; [lia|]. split; [reflexivity|]. split.
    { intros E. apply Hne. apply (f_equal (@List.length Z)) in E.
      rewrite length_map in E. exact E. }
    split; [exact Hidx|]. split.
    { rewrite Hfold. apply Z.eqb_eq. exact Hsum. }
    split; [reflexivity|]. split; [exact Hle | reflexivity].
Qed.

Lemma classifyText_diagnostics (f : Embedder) (s : @state num)
    (protos : list embedding) (text : string) (opts : options)
    (r : classification) :
  embedder s = Some f ->
  prototypeEmbeddings s = Some protos ->
  snd (classifyText text opts s) = Ok r ->
  cohomologyClass r = computeCohomologyClass (vector r)
  /\ zariskiCount r
     = Z.of_nat (List.length (zariskiCoverings (currentLabels s) (vector r))).
Proof.
  intros Hf Hc Hr.
  destruct (classifyText_eq s f protos text opts Hf Hc) as [sums E].
  rewrite E in Hr. cbn [snd] in Hr. cbv zeta in Hr.
  destruct (validChunkCount f (chunksOf text opts) =? 0); [discriminate|].
  set (c := mkClassification _ _ _ _ _ _) in Hr.
  assert (Hr' : r = c)
    by (symmetry; exact (f_equal (fun x => match x with Ok c => c | Throw _ => r end) Hr)).
  rewrite Hr'. split; reflexivity.
Qed.

(** X13: the shape of every result of [classifyText] on a worker with an
    embedder and a cache: the vector and the raw vector have one entry for
    each cached prototype embedding, the average embedding has 384
    entries, at least one and at most all of the chunks were processed,
    the cohomology class is 0 or 1 and the covering count is between 0 and
    127, both computed from the vector returned. *)
Theorem classification_well_formed (f : Embedder) (s : @state num)
    (protos : list embedding) (text : string) (opts : options)
    (r : classification) :
  embedder s = Some f ->
  prototypeEmbeddings s = Some protos ->
  snd (classifyText text opts s) = Ok r ->
  List.length (vector r) = List.length protos
  /\ List.length (rawVector r) = List.length protos
  /\ List.length (avgEmbedding r) = 384%nat
  /\ 1 <= chunksProcessed r <= Z.of_nat (List.length (chunksOf text opts))
  /\ cohomologyClass r = computeCohomologyClass (vector r)
  /\ (cohomologyClass r = 0 \/ cohomologyClass r = 1)
  /\ zariskiCount r
     = Z.of_nat (List.length (zariskiCoverings (currentLabels s) (vector r)))
  /\ 0 <= zariskiCount r <= 127.
Proof.
  intros Hf Hc Hr.
  destruct (classifyText_eq s f protos text opts Hf Hc) as [sums E].
  rewrite E in Hr. cbn [snd] in Hr. cbv zeta in Hr.
  destruct (validChunkCount f (chunksOf text opts) =? 0) eqn:Hv; [discriminate|].
  apply Z.eqb_neq in Hv.
  set (avg := map _ (zrange 0 384)) in Hr.
  set (raw := map (fun protoEmb => cosineSimilarity avg protoEmb) protos) in Hr.
  set (v := softmax raw) in Hr.
  assert (Hr' : r = mkClassification v raw avg (computeCohomologyClass v)
                      (Z.of_nat (List.length (zariskiCoverings (currentLabels s) v)))
                      (validChunkCount f (chunksOf text opts)))
    by (symmetry; exact (f_equal (fun x => match x with Ok c => c | Throw _ => r end) Hr)).
  rewrite Hr'.
  cbn [vector rawVector avgEmbedding cohomologyClass zariskiCount chunksProcessed].
  assert (Hcount : 0 <= validChunkCount f (chunksOf text opts)
                   <= Z.of_nat (List.length (chunksOf text opts))).
  { unfold validChunkCount. split; [lia|].
    apply Nat2Z.inj_le, filter_length_le. }
  pose proof (zariskiCoverings_count (currentLabels s) v) as Hz.
  split; [unfold v; rewrite softmax_length; unfold raw; apply length_map|].
  split; [unfold raw; apply length_map|].
  split; [unfold avg; rewrite length_map; apply zrange_length|].
  split; [lia|].
  split; [reflexivity|].
  split; [apply computeCohomologyClass_range|].
  split; [reflexivity | lia].
Qed.

End StateProperties.

Lemma updatePrototypeEmbeddings_outcome_witness :
  embedder readyWorker = Some pickyEmbedder
  /\ snd (updatePrototypeEmbeddings readyWorker) = Ok tt
  /\ prototypeEmbeddings (fst (updatePrototypeEmbeddings readyWorker))
     = Some (repeat [PrimFloat.one; PrimFloat.zero] 7).
Proof.
  split; [reflexivity|].
  rewrite (proj1 (updatePrototypeEmbeddings_outcome pickyEmbedder readyWorker eq_refl)).
  split; reflexivity.
Defined.

Lemma setLabels_with_prototypes_witness :
  embedder readyWorker = Some pickyEmbedder
  /\ List.length sevenLabels = 7%nat
  /\ List.length defaultPrototypes = 8%nat
  /\ currentLabels (fst (onmessage_setLabels
        (mkSetLabelsData (Some sevenLabels) (Some defaultPrototypes)) readyWorker))
     = sevenLabels.
Proof.
  split; [reflexivity|]. split; [reflexivity|]. split; [reflexivity|].
  rewrite (proj1 (setLabels_with_prototypes pickyEmbedder readyWorker sevenLabels
                    defaultPrototypes eq_refl eq_refl eq_refl)).
  reflexivity.
Defined.

(** A worker that has an embedder and has cached nothing; its embedder
    rejects the fourth description. *)
Lemma classifyText_cold_start_witness :
  embedder (mkState (Some pickyEmbedder) defaultLabels
              ["a"; "b"; "c"; "Second sentence right here."; "d"]%string None [] [])
  = Some pickyEmbedder
  /\ prototypeEmbeddings (mkState (Some pickyEmbedder) defaultLabels
              ["a"; "b"; "c"; "Second sentence right here."; "d"]%string None [] [])
     = None
  /\ prototypeEmbeddings (fst (classifyText (N := FloatNumber (fun x => x))
        "Any text at all." (mkOptions None None)
        (mkState (Some pickyEmbedder) defaultLabels
           ["a"; "b"; "c"; "Second sentence right here."; "d"]%string None [] [])))
     = Some (repeat [PrimFloat.one; PrimFloat.zero] 2).
Proof.
  split; [reflexivity|]. split; [reflexivity|].
  exact (proj1 (proj2 (classifyText_cold_start (N := FloatNumber (fun x => x))
           pickyEmbedder
           (mkState (Some pickyEmbedder) defaultLabels
              ["a"; "b"; "c"; "Second sentence right here."; "d"]%string None [] [])
           "Any text at all." (mkOptions None None) eq_refl eq_refl))).
Defined.

Lemma classification_well_formed_witness :
  exists r,
    snd (classifyText (N := FloatNumber (fun x => x))
           "First sentence is here. Second sentence right here."%string
           (mkOptions (Some 30) (Some 10)) readyWorker) = Ok r
    /\ List.length (vector r) = 7%nat
    /\ List.length (avgEmbedding r) = 384%nat.
Proof.
  destruct (classifyText_outcome (N := FloatNumber (fun x => x))
              readyWorker pickyEmbedder (repeat [PrimFloat.one; PrimFloat.zero] 7)
              "First sentence is here. Second sentence right here."%string
              (mkOptions (Some 30) (Some 10)) eq_refl eq_refl) as (_ & _ & H1).
  destruct (H1 ltac:(vm_compute; discriminate)) as (r & Hr & _).
  destruct (classification_well_formed (N := FloatNumber (fun x => x))
              pickyEmbedder readyWorker (repeat [PrimFloat.one; PrimFloat.zero] 7)
              "First sentence is here. Second sentence right here."%string
              (mkOptions (Some 30) (Some 10)) r eq_refl eq_refl Hr)
    as (Hv & _ & Ha & _).
  exists r. split; [exact Hr|]. split; [exact Hv | exact Ha].
Defined.

(** ** analyzeNarrativeTrajectory: rankings on a line of the table *)

Lemma propagateNarrative_by_state (tbl : table) (labels : list string) (d : Z)
    (chain : list Z) (verbose : bool) :
  match propagateState tbl (1, d) chain with
  | Ok st => exists p, propagateNarrative tbl labels d chain verbose = Ok p
                       /\ (finalSign p, finalDimension p) = st
  | Throw e => propagateNarrative tbl labels d chain verbose = Throw e
  end.
Proof.
  rewrite <- (finalState_propagateState tbl labels d chain verbose).
  unfold finalState.
  destruct (propagateNarrative tbl labels d chain verbose) as [p|e]; cbn [bind].
  - exists p. split; reflexivity.
  - reflexivity.
Qed.

Lemma chainsCheck_all :
  forallb (fun d0 => forallb (fun d1 => forallb (fun d2 => forallb (fun d3 =>
    forallb (fun n => implb (distinct4 d0 d1 d2 d3) (chainsCheck d0 d1 d2 d3 n))
      [0; 1; 2; 3]%nat)
    (zrange 1 7)) (zrange 1 7)) (zrange 1 7)) (zrange 1 7) = true.
Proof. vm_compute. reflexivity. Qed.

Lemma sliceTo_firstn {A : Type} (l : list A) (e : Z) :
  exists n, (n <= List.length l)%nat /\ sliceTo l e = firstn n l.
Proof.
  unfold sliceTo.
  set (m := Z.to_nat _).
  exists (Nat.min m (List.length l)). split; [apply Nat.le_min_r|].
  destruct (Nat.le_ge_cases m (List.length l)) as [H|H].
  - rewrite Nat.min_l by exact H. reflexivity.
  - rewrite Nat.min_r by exact H. rewrite firstn_all. apply firstn_all2. exact H.
Qed.

Section TrajectoryProperties.

Context {num : Type} {N : Number num}.

Lemma insertRanked_permutation (a : @ranked num) (l : list ranked) :
  Permutation (insertRanked a l) (a :: l).
Proof.
  induction l as [|b l IH]; cbn [insertRanked]; [apply Permutation_refl|].
  destruct (nlt _ _); [|apply Permutation_refl].
  eapply Permutation_trans; [apply perm_skip, IH | apply perm_swap].
Qed.

Lemma sortDescending_permutation (l : list (@ranked num)) :
  Permutation (sortDescending l) l.
Proof.
  induction l as [|a l IH]; cbn [sortDescending fold_right]; [apply Permutation_refl|].
  eapply Permutation_trans; [apply insertRanked_permutation|].
  apply perm_skip, IH.
Qed.

Lemma rankEntries_dims (labels : list string) (v : list num) :
  List.length v = 7%nat ->
  map ranked_dim (rankEntries labels v) = [1; 2; 3; 4; 5; 6; 7].
Proof.
  intros H.
  destruct v as [|v0 [|v1 [|v2 [|v3 [|v4 [|v5 [|v6 [|v7 v]]]]]]]]; try discriminate H.
  reflexivity.
Qed.

(** X15: on a vector of seven entries, [analyzeNarrativeTrajectory] throws
    a [TypeError] whenever the three top-ranked dimensions lie on a line of
    [octTable] (the table sends the first and the second to the third),
    for every [maxSteps]: the linear and the cyclic chain then reach the
    real scalar before their last element.  For every other ranking it
    returns the three trajectories, and the resonant chain ends on the
    product of the first two ranked dimensions with its sign reversed. *)
Theorem analyzeNarrativeTrajectory_fails_on_line (labels : list string)
    (vector : list num) (maxSteps : Z) :
  List.length vector = 7%nat ->
  exists d0 d1 d2 d3 rest s k,
    map ranked_dim (sortDescending (rankEntries labels vector))
      = d0 :: d1 :: d2 :: d3 :: rest
    /\ Permutation (d0 :: d1 :: d2 :: d3 :: rest) [1; 2; 3; 4; 5; 6; 7]
    /\ lookup octTable d0 d1 = Ok (Some (s, k))
    /\ if onLine octTable d0 d1 d2
       then analyzeNarrativeTrajectory octTable labels vector maxSteps
            = inr (Thrown TypeError)
       else exists a,
           analyzeNarrativeTrajectory octTable labels vector maxSteps = inl a
           /\ startDimension a = d0
           /\ startLabel a = js_nth labels (d0 - 1)
           /\ map trajectory_name (trajectories a)
              = ["Linear Progression"; "Cyclic Return"; "Resonant Amplification"]%string
           /\ map trajectory_chain (trajectories a)
              = [sliceTo [d1; d2; d3] maxSteps; [d1; d2; d0]; [d1; d1; d1]]
           /\ map (fun t => (finalSign (trajectory_result t),
                             finalDimension (trajectory_result t)))
                  (skipn 2 (trajectories a))
              = [(- s, k)].
Proof.
  intros Hlen. unfold analyzeNarrativeTrajectory.
  pose proof (Permutation_map ranked_dim
                (sortDescending_permutation (rankEntries labels vector))) as Hperm.
  rewrite (rankEntries_dims labels vector Hlen) in Hperm.
  pose proof (Permutation_length Hperm) as Hl. rewrite length_map in Hl.
  destruct (sortDescending (rankEntries labels vector))
    as [|e0 [|e1 [|e2 [|e3 rest0]]]]; try discriminate Hl.
  cbn [map] in Hperm.
  set (d0 := ranked_dim e0) in *. set (d1 := ranked_dim e1) in *.
  set (d2 := ranked_dim e2) in *. set (d3 := ranked_dim e3) in *.
  assert (Hin : forall d, In d [d0; d1; d2; d3] -> In d (zrange 1 7)).
  { intros d Hd. apply (Permutation_in d Hperm).
    cbn [In] in Hd |- *. tauto. }
  assert (Hnd : NoDup (d0 :: d1 :: d2 :: d3 :: map ranked_dim rest0)).
  { apply (Permutation_NoDup (Permutation_sym Hperm)).
    repeat constructor; cbn [In]; lia. }
  assert (Hd : distinct4 d0 d1 d2 d3 = true).
  { apply NoDup_cons_iff in Hnd as [H0 Hnd].
    apply NoDup_cons_iff in Hnd as [H1 Hnd].
    apply NoDup_cons_iff in Hnd as [H2 _].
    cbn [In] in H0, H1, H2. unfold distinct4.
    repeat (apply andb_true_intro; split); apply negb_true_iff, Z.eqb_neq;
      intros E; intuition congruence. }
  destruct (sliceTo_firstn [d1; d2; d3] maxSteps) as (n & Hn & Hslice).
  assert (Hcheck : chainsCheck d0 d1 d2 d3 n = true).
  { pose proof chainsCheck_all as Hall.
    rewrite forallb_forall in Hall. specialize (Hall d0 (Hin d0 ltac:(cbn; tauto))).
    rewrite forallb_forall in Hall. specialize (Hall d1 (Hin d1 ltac:(cbn; tauto))).
    rewrite forallb_forall in Hall. specialize (Hall d2 (Hin d2 ltac:(cbn; tauto))).
    rewrite forallb_forall in Hall. specialize (Hall d3 (Hin d3 ltac:(cbn; tauto))).
    rewrite forallb_forall in Hall.
    assert (Hn' : In n [0; 1; 2; 3]%nat) by (cbn [List.length] in Hn; cbn [In]; lia).
    specialize (Hall n Hn'). rewrite Hd in Hall. exact Hall. }
  unfold chainsCheck in Hcheck.
  exists d0, d1, d2, d3, (map ranked_dim rest0).
  destruct (lookup octTable d0 d1) as [[[s k]|]|e] eqn:Hlook; try discriminate Hcheck.
  exists s, k.
  split; [reflexivity|]. split; [exact Hperm|]. split; [reflexivity|].
  unfold onLine. rewrite Hlook.
  apply andb_prop in Hcheck as [_ Hcheck].
  unfold trajectoriesOf. cbn [tl firstn map]. fold d0 d1 d2 d3.
  rewrite Hslice. cbn [firstn app].
  pose proof (propagateNarrative_by_state octTable labels d0 (firstn n [d1; d2; d3]) true)
    as PL.
  pose proof (propagateNarrative_by_state octTable labels d0 [d1; d2; d0] true) as PC.
  pose proof (propagateNarrative_by_state octTable labels d0 [d1; d1; d1] true) as PR.
  destruct (k =? d2).
  - destruct (propagateState octTable (1, d0) (firstn n [d1; d2; d3])) as [stl|el].
    + destruct PL as (pl & -> & _).
      destruct (propagateState octTable (1, d0) [d1; d2; d0]) as [stc|ec];
        [discriminate Hcheck|].
      rewrite PC. destruct ec; try discriminate Hcheck. reflexivity.
    + rewrite PL. destruct el; try discriminate Hcheck. reflexivity.
  - destruct (propagateState octTable (1, d0) (firstn n [d1; d2; d3])) as [stl|el];
      [|discriminate Hcheck].
    destruct (propagateState octTable (1, d0) [d1; d2; d0]) as [stc|ec];
      [|discriminate Hcheck].
    destruct (propagateState octTable (1, d0) [d1; d1; d1]) as [[sr kr]|er];
      [|discriminate Hcheck].
    destruct PL as (pl & -> & _). destruct PC as (pc & -> & _).
    destruct PR as (pr & -> & Hpr).
    cbn [fst snd] in Hcheck. apply andb_prop in Hcheck as [Hs Hk].
    apply Z.eqb_eq in Hs, Hk. subst sr kr.
    eexists. split; [reflexivity|].
    cbn [startDimension startLabel trajectories map trajectory_name trajectory_chain
         trajectory_result skipn].
    rewrite Hpr. repeat split; reflexivity.
Qed.

End TrajectoryProperties.

(** A vector whose three largest entries are at dimensions 1, 2 and 4. *)
Lemma analyzeNarrativeTrajectory_fails_on_line_witness :
  List.length [float_ofZ 40; float_ofZ 30; float_ofZ 5;
               float_ofZ 20; float_ofZ 2; float_ofZ 2;
               float_ofZ 1] = 7%nat
  /\ exists d0 d1 d2 d3 rest s k,
      map ranked_dim
        (sortDescending (N := FloatNumber (fun x => x))
           (rankEntries defaultLabels
              [float_ofZ 40; float_ofZ 30; float_ofZ 5;
               float_ofZ 20; float_ofZ 2; float_ofZ 2;
               float_ofZ 1]))
        = d0 :: d1 :: d2 :: d3 :: rest
      /\ lookup octTable d0 d1 = Ok (Some (s, k)).
Proof.
  split; [reflexivity|].
  destruct (analyzeNarrativeTrajectory_fails_on_line (N := FloatNumber (fun x => x))
              defaultLabels
              [float_ofZ 40; float_ofZ 30; float_ofZ 5;
               float_ofZ 20; float_ofZ 2; float_ofZ 2;
               float_ofZ 1] 5 eq_refl)
    as (d0 & d1 & d2 & d3 & rest & s & k & H1 & _ & H3 & _).
  exists d0, d1, d2, d3, rest, s, k. split; assumption.
Defined.

Example analyzeNarrativeTrajectory_on_line :
  analyzeNarrativeTrajectory (N := FloatNumber (fun x => x)) octTable defaultLabels
    [float_ofZ 40; float_ofZ 30; float_ofZ 5;
     float_ofZ 20; float_ofZ 2; float_ofZ 2;
     float_ofZ 1] 5
  = inr (Thrown TypeError).
Proof. vm_compute. reflexivity. Qed.

(** ** CoherenceAnalyzer on the worker's vectors *)

Section CoherenceProperties.

Context {num : Type} {N : Number num}.






End CoherenceProperties.

(** ** cosineSimilarity under rounding *)

Section NumericProperties.

Local Open Scope R_scope.

Variables (rnd mathExp : R -> R) (u : R).
Hypothesis rnd_error : forall x, Rabs (rnd x - x) <= u * Rabs x.

Lemma rnd_zero : rnd 0 = 0.
Proof.
  pose proof (rnd_error 0) as H. rewrite Rabs_R0, Rmult_0_r in H.
  unfold Rabs in H. destruct (Rcase_abs (rnd 0 - 0)); lra.
Qed.

(** *** cosineSimilarity *)

Lemma nmul_comm (x y : xreal) :
  nmul (Number := RoundedNumber rnd mathExp) x y
  = nmul (Number := RoundedNumber rnd mathExp) y x.
Proof.
  destruct x as [x|], y as [y|]; cbn; try reflexivity.
  rewrite (Rmult_comm x y). reflexivity.
Qed.

Lemma cosine_fold_swap (a b : list xreal) (l : list Z) :
  forall dot magA magB,
    fold_left (fun '(dot, magA, magB) i =>
                 (nadd (Number := RoundedNumber rnd mathExp) dot
                    (nmul (Number := RoundedNumber rnd mathExp)
                       (at_ (N := RoundedNumber rnd mathExp) b i)
                       (at_ (N := RoundedNumber rnd mathExp) a i)),
                  nadd (Number := RoundedNumber rnd mathExp) magA
                    (nmul (Number := RoundedNumber rnd mathExp)
                       (at_ (N := RoundedNumber rnd mathExp) b i)
                       (at_ (N := RoundedNumber rnd mathExp) b i)),
                  nadd (Number := RoundedNumber rnd mathExp) magB
                    (nmul (Number := RoundedNumber rnd mathExp)
                       (at_ (N := RoundedNumber rnd mathExp) a i)
                       (at_ (N := RoundedNumber rnd mathExp) a i))))
              l (dot, magB, magA)
    = let '(d, x, y) :=
        fold_left (fun '(dot, magA, magB) i =>
                     (nadd (Number := RoundedNumber rnd mathExp) dot
                        (nmul (Number := RoundedNumber rnd mathExp)
                           (at_ (N := RoundedNumber rnd mathExp) a i)
                           (at_ (N := RoundedNumber rnd mathExp) b i)),
                      nadd (Number := RoundedNumber rnd mathExp) magA
                        (nmul (Number := RoundedNumber rnd mathExp)
                           (at_ (N := RoundedNumber rnd mathExp) a i)
                           (at_ (N := RoundedNumber rnd mathExp) a i)),
                      nadd (Number := RoundedNumber rnd mathExp) magB
                        (nmul (Number := RoundedNumber rnd mathExp)
                           (at_ (N := RoundedNumber rnd mathExp) b i)
                           (at_ (N := RoundedNumber rnd mathExp) b i))))
                  l (dot, magA, magB) in
      (d, y, x).
Proof.
  induction l as [|i l IH]; intros dot magA magB; [reflexivity|].
  cbn [fold_left].
  rewrite (nmul_comm (at_ (N := RoundedNumber rnd mathExp) b i)
             (at_ (N := RoundedNumber rnd mathExp) a i)).
  apply IH.
Qed.

(** X18: [cosineSimilarity] is symmetric on vectors of equal length,
    whatever the rounding. *)
Theorem cosineSimilarity_symmetric (a b : list xreal) :
  List.length a = List.length b ->
  cosineSimilarity (N := RoundedNumber rnd mathExp) a b
  = cosineSimilarity (N := RoundedNumber rnd mathExp) b a.
Proof.
  intros Hlen. unfold cosineSimilarity. rewrite <- Hlen.
  rewrite (cosine_fold_swap a b (zrange 0 (List.length a))).
  destruct (fold_left _ _ _) as [[dot magA] magB].
  rewrite (nmul_comm (nsqrt (Number := RoundedNumber rnd mathExp) magB)
             (nsqrt (Number := RoundedNumber rnd mathExp) magA)).
  reflexivity.
Qed.

Lemma at_zero (v : list xreal) (i : Z) :
  Forall (fun x => x = Fin 0) v ->
  zeroOrNaN (at_ (N := RoundedNumber rnd mathExp) v i).
Proof.
  intros Hv. unfold at_, js_nth.
  destruct (i <? 0)%Z; [right; reflexivity|].
  destruct (nth_error v (Z.to_nat i)) as [x|] eqn:E; [|right; reflexivity].
  apply nth_error_In in E. rewrite Forall_forall in Hv. left. apply Hv, E.
Qed.

Lemma square_zero (x acc : xreal) :
  zeroOrNaN x -> zeroOrNaN acc ->
  zeroOrNaN (nadd (Number := RoundedNumber rnd mathExp) acc
               (nmul (Number := RoundedNumber rnd mathExp) x x)).
Proof.
  intros [-> | ->] [-> | ->]; cbn; try (right; reflexivity).
  left. rewrite Rmult_0_l, rnd_zero, Rplus_0_l, rnd_zero. reflexivity.
Qed.

Lemma cosine_fold_zero (a b : list xreal) (l : list Z) :
  forall dot magA magB,
    let '(d, x, y) :=
      fold_left (fun '(dot, magA, magB) i =>
                   (nadd (Number := RoundedNumber rnd mathExp) dot
                      (nmul (Number := RoundedNumber rnd mathExp)
                         (at_ (N := RoundedNumber rnd mathExp) a i)
                         (at_ (N := RoundedNumber rnd mathExp) b i)),
                    nadd (Number := RoundedNumber rnd mathExp) magA
                      (nmul (Number := RoundedNumber rnd mathExp)
                         (at_ (N := RoundedNumber rnd mathExp) a i)
                         (at_ (N := RoundedNumber rnd mathExp) a i)),
                    nadd (Number := RoundedNumber rnd mathExp) magB
                      (nmul (Number := RoundedNumber rnd mathExp)
                         (at_ (N := RoundedNumber rnd mathExp) b i)
                         (at_ (N := RoundedNumber rnd mathExp) b i))))
                l (dot, magA, magB) in
    (Forall (fun x => x = Fin 0) a -> zeroOrNaN magA -> zeroOrNaN x)
    /\ (Forall (fun x => x = Fin 0) b -> zeroOrNaN magB -> zeroOrNaN y).
Proof.
  induction l as [|i l IH]; intros dot magA magB; [cbn; tauto|].
  cbn [fold_left].
  pose (ai := at_ (N := RoundedNumber rnd mathExp) a i).
  pose (bi := at_ (N := RoundedNumber rnd mathExp) b i).
  specialize (IH (nadd (Number := RoundedNumber rnd mathExp) dot
                    (nmul (Number := RoundedNumber rnd mathExp) ai bi))
                 (nadd (Number := RoundedNumber rnd mathExp) magA
                    (nmul (Number := RoundedNumber rnd mathExp) ai ai))
                 (nadd (Number := RoundedNumber rnd mathExp) magB
                    (nmul (Number := RoundedNumber rnd mathExp) bi bi))).
  subst ai bi.
  destruct (fold_left _ l _) as [[d x] y]. destruct IH as [IHa IHb].
  split; intros Hz Hm.
  - apply IHa; [exact Hz|]. apply square_zero; [apply at_zero, Hz | exact Hm].
  - apply IHb; [exact Hz|]. apply square_zero; [apply at_zero, Hz | exact Hm].
Qed.

Lemma nsqrt_zero (x : xreal) :
  zeroOrNaN x -> zeroOrNaN (nsqrt (Number := RoundedNumber rnd mathExp) x).
Proof.
  intros [-> | ->]; cbn; [|right; reflexivity].
  destruct (Rlt_dec 0 0) as [H|_]; [destruct (Rlt_irrefl 0 H)|].
  left. rewrite sqrt_0, rnd_zero. reflexivity.
Qed.

(** X19: the similarity with a vector of zero magnitude is 0: when every
    entry of one of the two vectors is 0, whatever their lengths,
    [cosineSimilarity] returns 0, the quotient being a division by zero or
    not a number. *)
Theorem cosineSimilarity_zero_vector (a b : list xreal) :
  Forall (fun x => x = Fin 0) a \/ Forall (fun x => x = Fin 0) b ->
  cosineSimilarity (N := RoundedNumber rnd mathExp) a b = Fin 0.
Proof.
  intros Hz. unfold cosineSimilarity.
  pose proof (cosine_fold_zero a b (zrange 0 (List.length a)) (Fin 0) (Fin 0) (Fin 0))
    as H. cbn [ofZ RoundedNumber].
  destruct (fold_left _ _ _) as [[dot magA] magB]. destruct H as [Ha Hb].
  assert (Hden : zeroOrNaN (nmul (Number := RoundedNumber rnd mathExp)
                              (nsqrt (Number := RoundedNumber rnd mathExp) magA)
                              (nsqrt (Number := RoundedNumber rnd mathExp) magB))).
  { destruct Hz as [Hz|Hz].
    - destruct (nsqrt_zero magA (Ha Hz (or_introl eq_refl))) as [-> | ->];
        destruct (nsqrt (Number := RoundedNumber rnd mathExp) magB) as [y|]; cbn;
        try (right; reflexivity).
      left. rewrite Rmult_0_l, rnd_zero. reflexivity.
    - destruct (nsqrt_zero magB (Hb Hz (or_introl eq_refl))) as [-> | ->];
        destruct (nsqrt (Number := RoundedNumber rnd mathExp) magA) as [x|]; cbn;
        try (right; reflexivity).
      left. rewrite Rmult_0_r, rnd_zero. reflexivity. }
  destruct Hden as [-> | ->]; destruct dot as [d|]; cbn; try reflexivity.
  destruct (Req_dec_T 0 0) as [_|H]; [reflexivity | exfalso; apply H; reflexivity].
Qed.

End NumericProperties.

Lemma cosineSimilarity_symmetric_witness :
  cosineSimilarity (N := RoundedNumber (fun x => x) exp) [Fin 1; Fin 2] [Fin 3; Fin 4]
  = cosineSimilarity (N := RoundedNumber (fun x => x) exp) [Fin 3; Fin 4] [Fin 1; Fin 2].
Proof.
  exact (cosineSimilarity_symmetric (fun x => x) exp [Fin 1; Fin 2] [Fin 3; Fin 4] eq_refl).
Defined.

(** On vectors of different lengths the loop runs over the first one, and
    the order of the arguments matters. *)
Example cosineSimilarity_unequal_lengths :
  cosineSimilarity (N := FloatNumber (fun x => x)) [PrimFloat.one] [PrimFloat.one; PrimFloat.one]
    = PrimFloat.one
  /\ cosineSimilarity (N := FloatNumber (fun x => x)) [PrimFloat.one; PrimFloat.one] [PrimFloat.one]
    = PrimFloat.zero.
Proof. split; vm_compute; reflexivity. Qed.

Lemma cosineSimilarity_zero_vector_witness :
  cosineSimilarity (N := RoundedNumber (fun x => x) exp) [Fin 1; Fin 2] [Fin 0; Fin 0]
  = Fin 0.
Proof.
  assert (Hrnd : forall x, (Rabs (x - x) <= 0 * Rabs x)%R).
  { intros x. replace (x - x)%R with 0%R by ring. rewrite Rabs_R0. lra. }
  apply (cosineSimilarity_zero_vector (fun x => x) exp 0 Hrnd).
  right. repeat constructor.
Defined.

(** ** propagateNarrative: a repeated element *)

(** X20: from a dimension [d] in 1..7, consuming a different element [n]
    of 1..7 leads to a third dimension [k]; consuming [n] again leads back
    to [d] with sign -1, a third time to [k] with the opposite sign, and a
    fourth time to the start: the chain [n, n, n, n] is the identity. *)
Theorem propagateNarrative_repeated_element (labels : list string) (d n : Z)
    (verbose : bool) :
  1 <= d <= 7 -> 1 <= n <= 7 -> d <> n ->
  exists s k,
    finalState (propagateNarrative octTable labels d [n] verbose) = Ok (s, k)
    /\ 1 <= k <= 7 /\ k <> d /\ k <> n
    /\ finalState (propagateNarrative octTable labels d [n; n] verbose) = Ok (-1, d)
    /\ finalState (propagateNarrative octTable labels d [n; n; n] verbose) = Ok (- s, k)
    /\ finalState (propagateNarrative octTable labels d [n; n; n; n] verbose) = Ok (1, d).
Proof.
  intros Hd Hn Hne. rewrite !finalState_propagateState.
  each_1_7 Hd; each_1_7 Hn; try (exfalso; apply Hne; reflexivity);
    do 2 eexists; (split; [reflexivity|]);
    repeat split; try reflexivity; try lia.
Qed.

Lemma propagateNarrative_repeated_element_witness :
  finalState (propagateNarrative octTable defaultLabels 1 [2; 2] true) = Ok (-1, 1)
  /\ finalState (propagateNarrative octTable defaultLabels 1 [2; 2; 2; 2] true) = Ok (1, 1).
Proof.
  destruct (propagateNarrative_repeated_element defaultLabels 1 2 true
              ltac:(lia) ltac:(lia) ltac:(lia))
    as (s & k & _ & _ & _ & _ & H2 & _ & H4).
  exact (conj H2 H4).
Defined.

(** ** cosineSimilarity on binary64 *)

(** X21: on binary64 numbers [cosineSimilarity] never returns NaN, whatever
    the two arrays hold (NaN or infinite entries, different lengths, no
    entry at all): a quotient that is not a number is replaced by 0. *)
Theorem cosineSimilarity_never_nan (mathExp : float -> float) (a b : list float) :
  PrimFloat.is_nan (cosineSimilarity (N := FloatNumber mathExp) a b) = false.
Proof.
  unfold cosineSimilarity.
  destruct (fold_left _ _ _) as [[dot magA] magB].
  cbn [truthy ndiv nmul nsqrt ofZ FloatNumber]. unfold float_truthy.
  destruct (PrimFloat.eqb _ PrimFloat.zero || PrimFloat.is_nan _) eqn:E; cbn [negb].
  - reflexivity.
  - apply orb_false_elim in E. apply E.
Qed.

(** ** ProvenanceTracker.simpleHash *)

Lemma toInt32_shift (a : Z) : exists k, toInt32 a = a + k * 4294967296.
Proof.
  unfold toInt32. exists (- ((a + 2147483648) / 4294967296)).
  rewrite (Z.mod_eq (a + 2147483648) 4294967296) by lia. lia.
Qed.

Lemma toInt32_congruent (a b k : Z) :
  a = b + k * 4294967296 -> toInt32 a = toInt32 b.
Proof.
  intros ->. unfold toInt32.
  replace (b + k * 4294967296 + 2147483648) with (b + 2147483648 + k * 4294967296) by lia.
  rewrite Z_mod_plus_full. reflexivity.
Qed.

Lemma toInt32_range (a : Z) : -2147483648 <= toInt32 a < 2147483648.
Proof.
  unfold toInt32.
  pose proof (Z.mod_pos_bound (a + 2147483648) 4294967296 ltac:(lia)). lia.
Qed.

Lemma toInt32_small (a : Z) : -2147483648 <= a < 2147483648 -> toInt32 a = a.
Proof. intros H. unfold toInt32. rewrite Z.mod_small; lia. Qed.

Lemma hashStep_polynomial (h c : Z) :
  bitAnd (shiftLeft (toInt32 h) 5 - toInt32 h + c) (shiftLeft (toInt32 h) 5 - toInt32 h + c)
  = toInt32 (31 * h + c).
Proof.
  unfold bitAnd. rewrite Z.land_diag.
  rewrite (toInt32_small (toInt32 _)) by apply toInt32_range.
  unfold shiftLeft. change (Z.land 5 31) with 5.
  rewrite (toInt32_small (toInt32 h)) by apply toInt32_range.
  rewrite Z.shiftl_mul_pow2 by lia. change (2 ^ 5) with 32.
  destruct (toInt32_shift h) as [k1 E1].
  destruct (toInt32_shift (toInt32 h * 32)) as [k2 E2].
  apply (toInt32_congruent _ _ (31 * k1 + k2)). lia.
Qed.

Lemma hashLoop_from (codes : list Z) :
  forall h,
    fold_left (fun hash char =>
                 let hash := shiftLeft hash 5 - hash + char in
                 bitAnd hash hash)
              codes (toInt32 h)
    = toInt32 (fold_left (fun h c => 31 * h + c) codes h).
Proof.
  induction codes as [|c codes IH]; intros h; [reflexivity|].
  cbn [fold_left]. cbv zeta. rewrite hashStep_polynomial. apply IH.
Qed.

Lemma zrange_In_intro (n : nat) :
  forall lo x, lo <= x < lo + Z.of_nat n -> In x (zrange lo n).
Proof.
  induction n as [|n IH]; intros lo x Hx; [lia|].
  cbn [zrange In]. destruct (Z.eq_dec lo x) as [->|Hne]; [left; reflexivity|].
  right. apply IH. lia.
Qed.

Lemma digitValue_digit36 (d : Z) : 0 <= d < 36 -> digitValue (digit36 d) = d.
Proof.
  intros H.
  assert (Hall : forallb (fun d => digitValue (digit36 d) =? d) (zrange 0 36) = true)
    by (vm_compute; reflexivity).
  rewrite forallb_forall in Hall. apply Z.eqb_eq, Hall, zrange_In_intro. lia.
Qed.

Lemma value36_app (s : string) (c : ascii) (acc : string) :
  forall v,
    fold_left (fun v c => v * 36 + digitValue c)
      (list_ascii_of_string (s ++ String c acc)) v
    = fold_left (fun v c => v * 36 + digitValue c) (list_ascii_of_string acc)
        (fold_left (fun v c => v * 36 + digitValue c) (list_ascii_of_string s) v * 36
         + digitValue c).
Proof.
  induction s as [|a s IH]; intros v; [reflexivity|].
  cbn [append list_ascii_of_string fold_left]. apply IH.
Qed.

Lemma digits36_acc (fuel : nat) :
  forall n acc, digits36 fuel n acc = (digits36 fuel n "" ++ acc)%string.
Proof.
  induction fuel as [|fuel IH]; intros n acc; [reflexivity|].
  cbn [digits36]. destruct (n / 36 =? 0); [reflexivity|].
  rewrite (IH (n / 36) (String _ acc)), (IH (n / 36) (String _ "")).
  rewrite append_assoc. reflexivity.
Qed.

Lemma digits36_value (fuel : nat) :
  forall n, 0 <= n < 36 ^ Z.of_nat fuel -> value36 (digits36 fuel n "") = n.
Proof.
  induction fuel as [|fuel IH]; intros n Hn.
  - cbn in Hn. assert (n = 0) by lia. subst n. reflexivity.
  - cbn [digits36].
    pose proof (Z.mod_pos_bound n 36 ltac:(lia)) as Hm.
    pose proof (Z.div_mod n 36 ltac:(lia)) as Hd.
    destruct (n / 36 =? 0) eqn:E.
    + apply Z.eqb_eq in E. unfold value36. cbn [list_ascii_of_string fold_left].
      rewrite digitValue_digit36 by lia. lia.
    + rewrite digits36_acc. unfold value36. rewrite value36_app.
      cbn [list_ascii_of_string fold_left].
      fold (value36 (digits36 fuel (n / 36) "")). rewrite IH.
      * rewrite digitValue_digit36 by lia. lia.
      * rewrite Nat2Z.inj_succ, Z.pow_succ_r in Hn by lia.
        split; [apply Z.div_pos; lia|].
        apply Z.div_lt_upper_bound; lia.
Qed.

Lemma toString36_value (n : Z) : 0 <= n -> value36 (toString36 n) = n.
Proof.
  intros Hn. unfold toString36. apply digits36_value. split; [exact Hn|].
  rewrite Nat2Z.inj_succ, Z2Nat.id by apply Z.log2_nonneg.
  destruct (Z.eq_dec n 0) as [->|Hne]; [cbn; lia|].
  pose proof (Z.log2_spec n ltac:(lia)) as [_ Hup].
  eapply Z.lt_le_trans; [exact Hup|].
  apply Z.pow_le_mono_l. lia.
Qed.

(** X22: [simpleHash] returns the base-36 numeral of the absolute value of
    the polynomial hash of the code units with base 31, taken as a signed
    32-bit integer: the shift, the subtraction and the [hash & hash] of
    the loop compute [31 * hash + char] modulo 2^32, and the hash stays
    within the signed 32-bit range. *)
Theorem simpleHash_polynomial (codes : list Z) :
  hashLoop codes = toInt32 (polynomial31 codes)
  /\ -2147483648 <= hashLoop codes < 2147483648
  /\ value36 (simpleHash codes) = Z.abs (toInt32 (polynomial31 codes)).
Proof.
  assert (E : hashLoop codes = toInt32 (polynomial31 codes)).
  { unfold hashLoop, polynomial31.
    rewrite <- (hashLoop_from codes 0). reflexivity. }
  split; [exact E|]. split; [rewrite E; apply toInt32_range|].
  unfold simpleHash. rewrite toString36_value by apply Z.abs_nonneg.
  rewrite E. reflexivity.
Qed.

(** Two strings with the same hash. *)
Example simpleHash_collision :
  simpleHash (codeUnits "Aa") = "1mo"%string
  /\ simpleHash (codeUnits "BB") = "1mo"%string.
Proof. split; vm_compute; reflexivity. Qed.
